(** * The résumé text-to-structure pipeline of [app/resume_parser.py]

    A shallow embedding of the parser ([_normalize_lines], [_detect_section],
    [_split_sections], the six field extractors and [parse_resume]) together
    with the properties its specification states about it.

    Python values are embedded as follows.
    - A [str] is a list of Unicode code points ([N]); literals are written as
      UTF-8 text and decoded by [u].
    - [bytes] is a list of [byte].
    - A [dict] with string keys is a [gmap str _]; the ordered constant
      [SECTION_KEYWORDS], whose iteration order matters, is an association
      list.
    - A raised exception is the [Raise] branch of [result].
    - The dictionary bound to the global [SECTION_KEYWORDS], the one object
      that outlives a call, is threaded as [module_state] where invocations
      are compared.
    - The interpreter's Unicode database (alphanumeric and decimal classes,
      lower-casing, case-insensitive matching) is the interface [Unicode];
      whitespace and line boundaries are small fixed sets and are written
      out. *)

From Stdlib Require Import Init.Byte.
From stdpp Require Import base numbers option list strings gmap.

Open Scope N_scope.

(** ** Strings *)

Abbreviation str := (list N).

(** UTF-8 decoding of a literal of the development (well-formed input only). *)
Fixpoint utf8_decode (bs : list N) : str :=
  match bs with
  | [] => []
  | b :: bs1 =>
    if b <? 0x80 then b :: utf8_decode bs1
    else match bs1 with
    | [] => []
    | c1 :: bs2 =>
      if b <? 0xE0 then ((b - 0xC0) * 0x40 + (c1 - 0x80)) :: utf8_decode bs2
      else match bs2 with
      | [] => []
      | c2 :: bs3 =>
        if b <? 0xF0
        then ((b - 0xE0) * 0x1000 + (c1 - 0x80) * 0x40 + (c2 - 0x80)) :: utf8_decode bs3
        else match bs3 with
        | [] => []
        | c3 :: bs4 =>
          ((b - 0xF0) * 0x40000 + (c1 - 0x80) * 0x1000 + (c2 - 0x80) * 0x40 + (c3 - 0x80))
            :: utf8_decode bs4
        end
      end
    end
  end.

Definition u (s : string) : str :=
  utf8_decode (map (Ascii.N_of_ascii) (String.list_ascii_of_string s)).
Arguments u : simpl never.

(** [c in " \t\n..."]: Python's [str.isspace] on one code point, which is also
    the class [\s] of [re] on [str] patterns. *)
Definition isspace (c : N) : bool :=
  ((0x09 <=? c) && (c <=? 0x0D)) || ((0x1C <=? c) && (c <=? 0x20))
  || (c =? 0x85) || (c =? 0xA0) || (c =? 0x1680)
  || ((0x2000 <=? c) && (c <=? 0x200A))
  || (c =? 0x2028) || (c =? 0x2029) || (c =? 0x202F) || (c =? 0x205F) || (c =? 0x3000).

(** The line boundaries of [str.splitlines]. *)
Definition is_linebreak (c : N) : bool :=
  ((0x0A <=? c) && (c <=? 0x0D)) || ((0x1C <=? c) && (c <=? 0x1E))
  || (c =? 0x85) || (c =? 0x2028) || (c =? 0x2029).

(** The part of the Unicode database the parser consults. *)
Class Unicode := {
  (** [str.isalnum] on one code point; [\w] is this or an underscore *)
  isalnum : N -> bool;
  (** [\d]: decimal digits *)
  isdecimal : N -> bool;
  (** [str.lower] *)
  lower : str -> str;
  (** [icase_eq c x]: the text character [x] matches the pattern literal [c]
      under [re.IGNORECASE] *)
  icase_eq : N -> N -> bool
}.

(** [s.strip(chars)] for a predicate on characters. *)
Fixpoint lstrip_by (p : N -> bool) (s : str) : str :=
  match s with
  | [] => []
  | c :: s' => if p c then lstrip_by p s' else s
  end.
Definition rstrip_by (p : N -> bool) (s : str) : str := reverse (lstrip_by p (reverse s)).
Definition strip_by (p : N -> bool) (s : str) : str := rstrip_by p (lstrip_by p s).

(** [s.strip()] *)
Definition strip (s : str) : str := strip_by isspace s.

(** [c in chars] for a character [c] *)
Definition char_in (chars : str) (c : N) : bool := bool_decide (c ∈ chars).

(** [s.strip(chars)] *)
Definition strip_chars (chars : str) (s : str) : str := strip_by (char_in chars) s.

(** [s.split(sep)] for a one-character separator *)
Fixpoint split_on (sep : N) (s : str) : list str :=
  match s with
  | [] => [[]]
  | c :: s' =>
    if c =? sep then [] :: split_on sep s'
    else match split_on sep s' with
         | [] => [[c]]
         | p :: ps => (c :: p) :: ps
         end
  end.

(** [s.split(sep, maxsplit=1)] for a one-character separator *)
Fixpoint split_once (sep : N) (s : str) : list str :=
  match s with
  | [] => [[]]
  | c :: s' =>
    if c =? sep then [[]; s']
    else match split_once sep s' with
         | [] => [[c]]
         | p :: ps => (c :: p) :: ps
         end
  end.

(** [sep.join(parts)] *)
Fixpoint join (sep : str) (parts : list str) : str :=
  match parts with
  | [] => []
  | [p] => p
  | p :: ps => p ++ sep ++ join sep ps
  end.

(** [sub in s] *)
Fixpoint contains (sub s : str) : bool :=
  bool_decide (sub `prefix_of` s)
  || match s with
     | [] => false
     | _ :: s' => contains sub s'
     end.

(** [s.endswith(suffix)] *)
Definition endswith (s suffix : str) : bool := bool_decide (suffix `suffix_of` s).

(** [s.splitlines()]: [cur] is the line being read, reversed; [after_cr] says
    that the previous character was a carriage return, so that a line feed
    here belongs to the same boundary. *)
Fixpoint splitlines_from (cur : str) (after_cr : bool) (s : str) : list str :=
  match s with
  | [] => match cur with [] => [] | _ => [reverse cur] end
  | c :: s' =>
    if after_cr && (c =? 0x0A) then splitlines_from cur false s'
    else if is_linebreak c then reverse cur :: splitlines_from [] (c =? 0x0D) s'
    else splitlines_from (c :: cur) false s'
  end.

Definition splitlines (s : str) : list str := splitlines_from [] false s.

(** ** Exceptions *)

Inductive exn : Type :=
| ValueError (msg : str)
| IndexError
| ExtractorError.     (* raised inside pdfplumber or python-docx *)

Inductive result (A : Type) : Type :=
| Ok (a : A)
| Raise (e : exn).
Arguments Ok {A} a.
Arguments Raise {A} e.

#[global] Instance result_ret : MRet result := fun A a => Ok a.
#[global] Instance result_bind : MBind result := fun A B f m =>
  match m with
  | Ok a => f a
  | Raise e => Raise e
  end.

(** [l[i]] *)
Definition getitem {A} (l : list A) (i : nat) : result A :=
  match l !! i with
  | Some x => Ok x
  | None => Raise IndexError
  end.

(** ** Regular expressions

    The fragment of Python's [re] that the parser's patterns are written in.
    Repetition is over a single-character item, as in every pattern of the
    source.  Matching follows the backtracking order of the engine: the
    matcher lists the positions at which a match of the pattern can end, most
    preferred first. *)

Inductive regex : Type :=
| Eps
| Lit (c : N)                                   (* a literal character *)
| LitI (c : N)                                  (* a cased literal under re.IGNORECASE *)
| Class (p : N -> bool)                         (* [...], \d, \w, \s, . *)
| Cat (r1 r2 : regex)                           (* r1 r2 *)
| Alt (r1 r2 : regex)                           (* r1|r2 *)
| Opt (r : regex)                               (* r? *)
| Rep (lo : nat) (hi : option nat) (p : N -> bool)  (* p{lo,hi}, p+, p* *)
| WordBoundary.                                 (* \b *)

(** A literal string as a pattern. *)
Definition lit (s : str) : regex := foldr (fun c r => Cat (Lit c) r) Eps s.
Definition lit_i (s : str) : regex := foldr (fun c r => Cat (LitI c) r) Eps s.

(** Greedy bounded repetition of a one-character item at the position whose
    text before is [b] (reversed) and whose text after is [a]. *)
Fixpoint rx_repeat (p : N -> bool) (lo : nat) (hi : option nat) (b a : str)
  : list (str * str) :=
  let stop := match lo with O => [(b, a)] | S _ => [] end in
  match a with
  | [] => stop
  | c :: a' =>
    if p c && match hi with Some O => false | _ => true end
    then rx_repeat p (Nat.pred lo) (Nat.pred <$> hi) (c :: b) a' ++ stop
    else stop
  end.

Section Regex.
Context `{U : Unicode}.

(** [\w] *)
Definition is_word (c : N) : bool := isalnum c || (c =? 0x5F).

Definition is_word_at (o : option N) : bool :=
  match o with
  | Some c => is_word c
  | None => false
  end.

(** [\b] between the text before (reversed) and the text after *)
Definition at_boundary (b a : str) : bool :=
  xorb (is_word_at (head b)) (is_word_at (head a)).

Fixpoint rx_match (r : regex) (b a : str) : list (str * str) :=
  match r with
  | Eps => [(b, a)]
  | Lit c =>
    match a with
    | x :: a' => if x =? c then [(x :: b, a')] else []
    | [] => []
    end
  | LitI c =>
    match a with
    | x :: a' => if icase_eq c x then [(x :: b, a')] else []
    | [] => []
    end
  | Class p =>
    match a with
    | x :: a' => if p x then [(x :: b, a')] else []
    | [] => []
    end
  | Cat r1 r2 => '(b', a') ← rx_match r1 b a; rx_match r2 b' a'
  | Alt r1 r2 => rx_match r1 b a ++ rx_match r2 b a
  | Opt r1 => rx_match r1 b a ++ [(b, a)]
  | Rep lo hi p => rx_repeat p lo hi b a
  | WordBoundary => if at_boundary b a then [(b, a)] else []
  end.

(** The text of the preferred match starting at this position, if any. *)
Definition match_here (r : regex) (b a : str) : option str :=
  match rx_match r b a with
  | (_, a') :: _ => Some (take (length a - length a')%nat a)
  | [] => None
  end.

(** [re.search(r, s)]: [group(0)] of the leftmost match; [b] is the text
    already passed, reversed. *)
Fixpoint search_from (r : regex) (b a : str) : option str :=
  match match_here r b a with
  | Some m => Some m
  | None =>
    match a with
    | [] => None
    | x :: a' => search_from r (x :: b) a'
    end
  end.

Definition re_search (r : regex) (s : str) : option str := search_from r [] s.

(** [re.split(r, s)] for a pattern that has no group and matches no empty
    string: [skip] counts the characters of the separator still to pass,
    [cur] is the piece being read, reversed. *)
Fixpoint split_from (r : regex) (skip : nat) (cur b a : str) : list str :=
  match a with
  | [] => [reverse cur]
  | x :: a' =>
    match skip with
    | S k => split_from r k cur (x :: b) a'
    | O =>
      match match_here r b a with
      | Some (_ :: m) => reverse cur :: split_from r (length m) [] (x :: b) a'
      | _ => split_from r O (x :: cur) (x :: b) a'
      end
    end
  end.

Definition re_split (r : regex) (s : str) : list str := split_from r O [] [] s.

(** *** The patterns of the source *)

Definition digit : N -> bool := isdecimal.
Definition space_or_hyphen (c : N) : bool := isspace c || (c =? 0x2D).
Definition not_space (c : N) : bool := negb (isspace c).
(** [.] without re.DOTALL *)
Definition dot (c : N) : bool := negb (c =? 0x0A).

(** [rf"\b{re.escape(keyword)}\b"] *)
Definition keyword_pattern (keyword : str) : regex :=
  Cat WordBoundary (Cat (lit keyword) WordBoundary).

(** [r"[\w\.\-+]+@[\w\-]+\.[\w\.-]+"] *)
Definition email_pattern : regex :=
  Cat (Rep 1 None (fun c => is_word c || (c =? 0x2E) || (c =? 0x2D) || (c =? 0x2B)))
  (Cat (Lit 0x40)
  (Cat (Rep 1 None (fun c => is_word c || (c =? 0x2D)))
  (Cat (Lit 0x2E)
       (Rep 1 None (fun c => is_word c || (c =? 0x2E) || (c =? 0x2D)))))).

(** [r"(?:\+?\d{1,3}[\s-]?)?(?:\(?\d{2,3}\)?[\s-]?)?\d{4,5}[\s-]?\d{4}"] *)
Definition phone_pattern : regex :=
  Cat (Opt (Cat (Opt (Lit 0x2B)) (Cat (Rep 1 (Some 3%nat) digit) (Opt (Class space_or_hyphen)))))
  (Cat (Opt (Cat (Opt (Lit 0x28)) (Cat (Rep 2 (Some 3%nat) digit)
                 (Cat (Opt (Lit 0x29)) (Opt (Class space_or_hyphen))))))
  (Cat (Rep 4 (Some 5%nat) digit)
  (Cat (Opt (Class space_or_hyphen))
       (Rep 4 (Some 4%nat) digit)))).

(** [r"linkedin\.com/[^\s]+"] with [re.IGNORECASE] *)
Definition linkedin_pattern : regex :=
  Cat (lit_i (u "linkedin")) (Cat (Lit 0x2E) (Cat (lit_i (u "com")) (Cat (Lit 0x2F)
      (Rep 1 None not_space)))).

(** [r"https?://[^\s]+"] *)
Definition url_pattern : regex :=
  Cat (lit (u "http")) (Cat (Opt (Lit 0x73)) (Cat (lit (u "://")) (Rep 1 None not_space))).

(** [r"(\d{4}|\w+\s\d{4}).*(\d{4}|presente|atual)"] with [re.IGNORECASE] *)
Definition date_pattern : regex :=
  Cat (Alt (Rep 4 (Some 4%nat) digit)
           (Cat (Rep 1 None is_word) (Cat (Class isspace) (Rep 4 (Some 4%nat) digit))))
  (Cat (Rep 0 None dot)
       (Alt (Rep 4 (Some 4%nat) digit) (Alt (lit_i (u "presente")) (lit_i (u "atual"))))).

(** [r" - | – |,"] *)
Definition education_separator : regex :=
  Alt (lit (u " - ")) (Alt (lit (u " – ")) (Lit 0x2C)).

(** [r" - | – |:|,"] *)
Definition project_separator : regex :=
  Alt (lit (u " - ")) (Alt (lit (u " – ")) (Alt (Lit 0x3A) (Lit 0x2C))).

(** [r"-|–"] *)
Definition date_separator : regex := Alt (Lit 0x2D) (Lit 0x2013).

End Regex.

(** ** The data model ([app/models.py]) *)

Module ContactInfo.
Record t : Type := mk {
  full_name : str;
  email : option str;
  phone : option str;
  location : option str;
  website : option str;
  linkedin : option str
}.
End ContactInfo.

Module ExperienceItem.
Record t : Type := mk {
  role : str;
  company : option str;
  start_date : option str;
  end_date : option str;
  summary : option str;
  highlights : list str
}.
End ExperienceItem.

Module EducationItem.
Record t : Type := mk {
  degree : str;
  institution : option str;
  start_date : option str;
  end_date : option str;
  summary : option str
}.
End EducationItem.

Module ProjectItem.
Record t : Type := mk {
  name : str;
  description : option str;
  link : option str
}.
End ProjectItem.

Module ResumeData.
Record t : Type := mk {
  contact : ContactInfo.t;
  professional_summary : option str;
  experiences : list ExperienceItem.t;
  educations : list EducationItem.t;
  skills : list str;
  projects : list ProjectItem.t
}.
End ResumeData.

(** ** The parser ([app/resume_parser.py]) *)

Definition SECTION_KEYWORDS : list (str * list str) :=
  [ (u "experience",
     [u "experience"; u "experiência"; u "experiencia"; u "work history";
      u "histórico profissional"; u "trajetória"; u "carreira"]);
    (u "education",
     [u "education"; u "formação"; u "formacao"; u "formação acadêmica";
      u "formacao academica"; u "academic"; u "educação"; u "educacao"]);
    (u "skills", [u "skills"; u "competências"; u "competencias"; u "habilidades"]);
    (u "projects", [u "projects"; u "projetos"; u "realizações"]);
    (u "summary", [u "summary"; u "resumo"; u "resumo profissional"; u "perfil"; u "objetivo"]) ].

(** The truth value of a string: [if line], [if part.strip()] *)
Definition nonempty (s : str) : bool :=
  match s with
  | [] => false
  | _ :: _ => true
  end.

(** The truth value of the result of [re.search] *)
Definition found (m : option str) : bool :=
  match m with
  | Some _ => true
  | None => false
  end.

(** The message of the [ValueError] of [parse_resume] *)
Definition unsupported_message : str :=
  u "Formato de arquivo não suportado. Utilize PDF ou Word.".

Section Parser.
Context `{U : Unicode}.

(** The text extractors, [_read_pdf] and [_read_docx]: they hand the bytes to
    pdfplumber and python-docx, and return the text or raise. *)
Variable _read_pdf : list byte -> result str.
Variable _read_docx : list byte -> result str.

Definition _normalize_lines (text : str) : list str :=
  let lines := strip <$> splitlines text in
  List.filter nonempty lines.

(** The loop of [_detect_section] over the items of the table. *)
Fixpoint detect_in (table : list (str * list str)) (normalized : str) : option str :=
  match table with
  | [] => None
  | (section, keywords) :: table' =>
    if existsb (fun keyword => found (re_search (keyword_pattern keyword) normalized)) keywords
    then Some section
    else detect_in table' normalized
  end.

Definition _detect_section (line : str) : option str :=
  let normalized := lower line in
  detect_in SECTION_KEYWORDS normalized.

(** [sections.setdefault(current, []).append(line)] *)
Definition append_to (current : str) (line : str) (sections : gmap str (list str))
  : gmap str (list str) :=
  <[current := default [] (sections !! current) ++ [line]]> sections.

(** The loop of [_split_sections]; [if detected] holds for a string that is
    not empty. *)
Fixpoint split_loop (lines : list str) (current : str) (sections : gmap str (list str))
  : gmap str (list str) :=
  match lines with
  | [] => sections
  | line :: lines' =>
    match _detect_section line with
    | Some (c :: detected) => split_loop lines' (c :: detected) sections
    | _ => split_loop lines' current (append_to current line sections)
    end
  end.

Definition _split_sections (lines : list str) : gmap str (list str) :=
  let sections : gmap str (list str) :=
    foldl (fun m kv => <[kv.1 := []]> m) ∅ SECTION_KEYWORDS in
  let sections := <[u "header" := []]> sections in
  split_loop lines (u "header") sections.

(** [sections.get(key, [])] *)
Definition get (sections : gmap str (list str)) (key : str) : list str :=
  default [] (sections !! key).

Definition _extract_contact (header_lines : list str) : ContactInfo.t :=
  match header_lines with
  | [] => ContactInfo.mk (u "Nome não identificado") None None None None None
  | full_name :: _ =>
    let contact_details :=
      if (1 <? length header_lines)%nat then join (u " ") (drop 1 header_lines) else [] in
    let email_match := re_search email_pattern contact_details in
    let phone_match := re_search phone_pattern contact_details in
    let linkedin_match := re_search linkedin_pattern contact_details in
    let website_match := re_search url_pattern contact_details in
    let location_match :=
      if contains (u ",") contact_details then
        let parts :=
          strip <$> List.filter (fun part => (2 <? length (strip part))%nat)
                                (split_on 0x2C contact_details) in
        last parts
      else None in
    ContactInfo.mk full_name email_match phone_match location_match website_match linkedin_match
  end.

Definition _experience_from_block (lines : list str) : result ExperienceItem.t :=
  header ← getitem lines 0;
  let summary_lines := drop 1 lines in
  let date_match := re_search date_pattern header in
  let '(company, role) :=
    if contains (u "-") header then
      match strip <$> split_once 0x2D header with
      | [part0; part1] => (Some part0, part1)
      | _ => (None, header)
      end
    else (None, header) in
  let '(start_date, end_date, summary_lines) :=
    match date_match with
    | Some date_text =>
      let dates :=
        match re_split date_separator date_text with
        | [s; e] => (Some (strip s), Some (strip e))
        | _ => (None, None)
        end in
      (dates.1, dates.2, List.filter (fun line => negb (contains date_text line)) summary_lines)
    | None => (None, None, summary_lines)
    end in
  let highlights :=
    strip_chars (u "- ") <$> List.filter (fun line => nonempty (strip line)) summary_lines in
  mret (ExperienceItem.mk (strip role) company start_date end_date None highlights).

(** The loop of [_parse_experience] over [lines + [""]]. *)
Fixpoint experience_loop (lines : list str) (experiences : list ExperienceItem.t)
    (buffer : list str) : result (list ExperienceItem.t) :=
  match lines with
  | [] => mret experiences
  | line :: lines' =>
    if negb (nonempty (strip line)) && negb (bool_decide (buffer = [])) then
      item ← _experience_from_block buffer;
      experience_loop lines' (experiences ++ [item]) []
    else experience_loop lines' experiences (buffer ++ [line])
  end.

Definition _parse_experience (lines : list str) : result (list ExperienceItem.t) :=
  experience_loop (lines ++ [[]]) [] [].

(** The loop of [_parse_education]. *)
Fixpoint education_loop (lines : list str) (educations : list EducationItem.t)
  : result (list EducationItem.t) :=
  match lines with
  | [] => mret educations
  | line :: lines' =>
    if negb (nonempty line) then education_loop lines' educations
    else
      let parts :=
        strip <$> List.filter (fun part => nonempty (strip part))
                              (re_split education_separator line) in
      degree ← getitem parts 0;
      let institution := parts !! 1%nat in
      let summary :=
        if (2 <? length parts)%nat then Some (join (u ", ") (drop 2 parts)) else None in
      education_loop lines'
        (educations ++ [EducationItem.mk degree institution None None summary])
  end.

Definition _parse_education (lines : list str) : result (list EducationItem.t) :=
  education_loop lines [].

Definition _parse_skills (lines : list str) : list str :=
  let skills_text := join (u " ") lines in
  if contains (u ";") skills_text then
    strip <$> List.filter (fun skill => nonempty (strip skill)) (split_on 0x3B skills_text)
  else if contains (u ",") skills_text then
    strip <$> List.filter (fun skill => nonempty (strip skill)) (split_on 0x2C skills_text)
  else strip_chars (u "- ") <$> List.filter (fun line => nonempty (strip line)) lines.

(** The loop of [_parse_projects]. *)
Fixpoint projects_loop (lines : list str) (projects : list ProjectItem.t)
  : result (list ProjectItem.t) :=
  match lines with
  | [] => mret projects
  | line :: lines' =>
    if negb (nonempty line) then projects_loop lines' projects
    else
      let parts :=
        strip <$> List.filter (fun part => nonempty (strip part))
                              (re_split project_separator line) in
      name ← getitem parts 0;
      let description :=
        if (1 <? length parts)%nat then Some (join (u ", ") (drop 1 parts)) else None in
      let link_match := re_search url_pattern line in
      projects_loop lines' (projects ++ [ProjectItem.mk name description link_match])
  end.

Definition _parse_projects (lines : list str) : result (list ProjectItem.t) :=
  projects_loop lines [].

(** [parse_resume] from the point where [text] is bound. *)
Definition parse_text (text : str) : result ResumeData.t :=
  let lines := _normalize_lines text in
  let sections := _split_sections lines in
  let contact := _extract_contact (get sections (u "header")) in
  experiences ← _parse_experience (get sections (u "experience"));
  educations ← _parse_education (get sections (u "education"));
  let skills := _parse_skills (get sections (u "skills")) in
  projects ← _parse_projects (get sections (u "projects"));
  let summary_lines := get sections (u "summary") in
  let professional_summary :=
    if bool_decide (summary_lines = []) then None else Some (join (u " ") summary_lines) in
  mret (ResumeData.mk contact professional_summary experiences educations skills projects).

Definition parse_resume (file_bytes : list byte) (filename : str) : result ResumeData.t :=
  text ←
    (if endswith (lower filename) (u ".pdf") then _read_pdf file_bytes
     else if endswith (lower filename) (u ".doc") || endswith (lower filename) (u ".docx")
     then _read_docx file_bytes
     else Raise (ValueError unsupported_message));
  parse_text text.

End Parser.

(** ** The Unicode database on Basic Latin and Latin-1

    The tables of the interpreter restricted to the code points U+0000 to
    U+00FF, on which they are exact; the examples below are written in this
    range. *)

Definition latin1_isdecimal (c : N) : bool := (0x30 <=? c) && (c <=? 0x39).

Definition latin1_isalnum (c : N) : bool :=
  latin1_isdecimal c
  || ((0x41 <=? c) && (c <=? 0x5A)) || ((0x61 <=? c) && (c <=? 0x7A))
  || (c =? 0xAA) || (c =? 0xB2) || (c =? 0xB3) || (c =? 0xB5) || (c =? 0xB9) || (c =? 0xBA)
  || ((0xBC <=? c) && (c <=? 0xBE))
  || ((0xC0 <=? c) && (c <=? 0xD6)) || ((0xD8 <=? c) && (c <=? 0xF6))
  || ((0xF8 <=? c) && (c <=? 0xFF)).

Definition latin1_tolower (c : N) : N :=
  if ((0x41 <=? c) && (c <=? 0x5A)) || ((0xC0 <=? c) && (c <=? 0xD6))
     || ((0xD8 <=? c) && (c <=? 0xDE))
  then c + 0x20 else c.

Definition Latin1 : Unicode := {|
  isalnum := latin1_isalnum;
  isdecimal := latin1_isdecimal;
  lower := map latin1_tolower;
  icase_eq := fun c x => latin1_tolower x =? latin1_tolower c
|}.

(** ** Notions of the specification *)

(** "Trim, drop empty" over the fragments of a split. *)
Definition trimmed_nonblank (parts : list str) : list str :=
  omap (fun part => match strip part with [] => None | t => Some t end) parts.

(** One skill per line that is not blank, hyphens and spaces removed at both
    ends. *)
Definition unbulleted (lines : list str) : list str :=
  omap (fun line => match strip line with
                    | [] => None
                    | _ => Some (strip_chars (u "- ") line)
                    end) lines.

(** A line "stripped of leading [- ] bullet markers", read literally. *)
Fixpoint without_leading_bullets (line : str) : str :=
  match line with
  | 0x2D :: 0x20 :: line' => without_leading_bullets line'
  | _ => line
  end.

(** A word boundary between two adjacent pieces of text. *)
Definition word_edge `{U : Unicode} (before after : str) : Prop :=
  is_word_at (last before) <> is_word_at (head after).

Definition whole_word_in `{U : Unicode} (keyword s : str) : Prop :=
  exists pre post, s = pre ++ keyword ++ post
    /\ word_edge pre (keyword ++ post) /\ word_edge (pre ++ keyword) post.

Definition matches_section `{U : Unicode} (keywords : list str) (line : str) : Prop :=
  exists keyword, keyword ∈ keywords /\ whole_word_in keyword (lower line).

Definition is_heading `{U : Unicode} (line : str) : Prop :=
  exists section keywords,
    (section, keywords) ∈ SECTION_KEYWORDS /\ matches_section keywords line.

(** The six section identifiers of the result of [_split_sections]. *)
Definition section_ids : list str :=
  [u "header"; u "experience"; u "education"; u "skills"; u "projects"; u "summary"].

(** The section in force once the lines [pre] have been read: that of the
    last heading among them, [header] when there is none. *)
Definition cursor_after `{U : Unicode} (pre : list str) : str :=
  default (u "header") (last (omap _detect_section pre)).

(** The lines of [lines] that are not headings and are read while the section
    in force is [k], in the order of the document; [pre] are the lines read
    before [lines]. *)
Definition bucket_after `{U : Unicode} (pre : list str) (k : str) (lines : list str)
  : list str :=
  omap id (imap (fun i line =>
                   if decide (_detect_section line = None
                              /\ cursor_after (pre ++ take i lines) = k)
                   then Some line else None) lines).

Definition bucket_of `{U : Unicode} (k : str) (lines : list str) : list str :=
  bucket_after [] k lines.

(** The dictionary of [_split_sections] before its loop. *)
Definition initial_sections : gmap str (list str) :=
  <[u "header" := []]> (foldl (fun m kv => <[kv.1 := []]> m) ∅ SECTION_KEYWORDS).

(** A hyphen or an en dash, the separators of [r"-|–"]. *)
Definition is_dash (c : N) : bool := (c =? 0x2D) || (c =? 0x2013).

(** The pieces of [s] between its characters that satisfy [p]. *)
Fixpoint split_where (p : N -> bool) (s : str) : list str :=
  match s with
  | [] => [[]]
  | c :: s' =>
    if p c then [] :: split_where p s'
    else match split_where p s' with
         | [] => [[c]]
         | piece :: pieces => (c :: piece) :: pieces
         end
  end.

(** The fragments of a line of the education or projects bucket: the trimmed
    pieces between separators, the blank ones left out. *)
Definition fragments `{U : Unicode} (separator : regex) (line : str) : list str :=
  trimmed_nonblank (re_split separator line).

(** [m] stands in [line] as its first web address: a scheme followed by
    every character up to the next white space or the end of the line, at
    least one, and no scheme followed by a character that is not white space
    begins before it. *)
Definition url_in (line m : str) : Prop :=
  exists pre tail post,
    line = pre ++ m ++ post
    /\ (m = u "http://" ++ tail \/ m = u "https://" ++ tail)
    /\ tail <> [] /\ Forall (fun c => isspace c = false) tail
    /\ (head post = None \/ exists c, head post = Some c /\ isspace c = true)
    /\ (forall before c after,
          isspace c = false ->
          line = before ++ u "http://" ++ c :: after
          \/ line = before ++ u "https://" ++ c :: after ->
          (length pre <= length before)%nat).

(** A line holds the start of a web address: a scheme and a character that
    is not white space. *)
Definition has_url (line : str) : Prop :=
  exists pre c post,
    isspace c = false
    /\ (line = pre ++ u "http://" ++ c :: post \/ line = pre ++ u "https://" ++ c :: post).

(** The education entry read from the fragments of one line. *)
Definition education_of_line `{U : Unicode} (line : str) (item : EducationItem.t) : Prop :=
  exists degree others,
    fragments education_separator line = degree :: others
    /\ Forall (fun fragment => fragment <> [] /\ strip fragment = fragment) (degree :: others)
    /\ EducationItem.degree item = degree
    /\ EducationItem.institution item = head others
    /\ EducationItem.summary item
       = match others with
         | _ :: (_ :: _) as more => Some (join (u ", ") more)
         | _ => None
         end
    /\ EducationItem.start_date item = None /\ EducationItem.end_date item = None.

(** The project entry read from the fragments of one line. *)
Definition project_of_line `{U : Unicode} (line : str) (item : ProjectItem.t) : Prop :=
  exists name others,
    fragments project_separator line = name :: others
    /\ Forall (fun fragment => fragment <> [] /\ strip fragment = fragment) (name :: others)
    /\ ProjectItem.name item = name
    /\ ProjectItem.description item
       = match others with
         | [] => None
         | _ => Some (join (u ", ") others)
         end
    /\ match ProjectItem.link item with
       | Some m => url_in line m
       | None => ~ has_url line
       end.

(** A line that is empty once trimmed. *)
Definition blank (line : str) : bool := negb (nonempty (strip line)).

(** The least number of characters a match of a pattern consumes. *)
Fixpoint min_length (r : regex) : nat :=
  match r with
  | Eps | Opt _ | WordBoundary => 0
  | Lit _ | LitI _ | Class _ => 1
  | Cat r1 r2 => min_length r1 + min_length r2
  | Alt r1 r2 => Nat.min (min_length r1) (min_length r2)
  | Rep lo _ _ => lo
  end.

(** [v] is a piece of [s]. *)
Definition piece_of (v s : str) : Prop := exists pre post, s = pre ++ v ++ post.

(** A text that neither begins nor ends with a character of [chars]. *)
Definition clean_ends (chars : str) (s : str) : Prop :=
  forall c, head s = Some c \/ last s = Some c -> c ∉ chars.

(** The fields of an experience entry are trimmed, and its highlights
    neither begin nor end with a hyphen or a space. *)
Definition tidy_experience (item : ExperienceItem.t) : Prop :=
  strip (ExperienceItem.role item) = ExperienceItem.role item
  /\ (forall v, ExperienceItem.company item = Some v -> strip v = v)
  /\ (forall v, ExperienceItem.start_date item = Some v -> strip v = v)
  /\ (forall v, ExperienceItem.end_date item = Some v -> strip v = v)
  /\ ExperienceItem.summary item = None
  /\ Forall (clean_ends (u "- ")) (ExperienceItem.highlights item).

(** ** The upload endpoint ([app/main.py]) *)

(** What a route function does: it returns a body, or raises
    [HTTPException(status_code, detail)]. *)
Inductive response (A : Type) : Type :=
| Returns (body : A)
| HTTPException (status_code : N) (detail : str).
Arguments Returns {A} body.
Arguments HTTPException {A} status_code detail.

Definition internal_error_detail : str := u "Erro ao processar o arquivo".

(** The two [except] clauses of [parse_resume_endpoint]: [str(exc)] of a
    [ValueError] is its message. *)
Definition handle_exception {A} (e : exn) : response A :=
  match e with
  | ValueError msg => HTTPException 400 msg
  | _ => HTTPException 500 internal_error_detail
  end.

Section Endpoint.
Context `{U : Unicode}.
Variable _read_pdf : list byte -> result str.
Variable _read_docx : list byte -> result str.

(** [parse_resume_endpoint]: [read] is the outcome of [await file.read()],
    [filename] is [file.filename], which is [None] for an upload without a
    name; [None.lower()] raises [AttributeError], which is not a
    [ValueError]. *)
Definition parse_resume_endpoint (read : result (list byte)) (filename : option str)
  : response ResumeData.t :=
  match read with
  | Raise e => handle_exception e
  | Ok contents =>
    match filename with
    | None => HTTPException 500 internal_error_detail
    | Some name =>
      match parse_resume _read_pdf _read_docx contents name with
      | Ok resume => Returns resume
      | Raise e => handle_exception e
      end
    end
  end.

End Endpoint.

(** The file name has one of the three extensions of [parse_resume]. *)
Definition supported `{U : Unicode} (filename : str) : bool :=
  endswith (lower filename) (u ".pdf")
  || endswith (lower filename) (u ".doc") || endswith (lower filename) (u ".docx").

(** ** The state of the module

    The one object of [resume_parser] that outlives a call is the dictionary
    bound to [SECTION_KEYWORDS]; every other object a call works on is
    created by the call.  To say what invocations do to each other, the
    functions that read the dictionary are embedded once more, as they read
    it: in a state monad over the value the global holds. *)







Section StatefulParser.
Context `{U : Unicode}.







End StatefulParser.

(** ** Properties *)

Ltac by_computation := vm_compute; reflexivity.
Ltac differ := apply (bool_decide_eq_false_1 _); vm_compute; reflexivity.

(** *** The string operations on examples *)

Example u_test : u "São – x" = [83; 227; 111; 32; 8211; 32; 120].
Proof. reflexivity. Qed.
Example splitlines_test :
  splitlines (u "a" ++ [13; 10] ++ u "b" ++ [10; 10] ++ u "c" ++ [13] ++ u "d" ++ [10])
  = [u "a"; u "b"; []; u "c"; u "d"].
Proof. vm_compute. reflexivity. Qed.
Example split_test : split_on 44 (u "a,b,,c,") = [u "a"; u "b"; []; u "c"; []].
Proof. vm_compute. reflexivity. Qed.
Example strip_test : strip (u "  a b  ") = u "a b" /\ strip (u "   ") = [] /\ strip_chars (u "- ") (u "- a-b -") = u "a-b".
Proof. vm_compute. auto. Qed.
Example contains_test : contains (u "bc") (u "abcd") = true /\ contains (u "bd") (u "abcd") = false /\ contains [] [] = true.
Proof. vm_compute. auto. Qed.

(** *** Unsupported formats *)

(** A file name whose extension is not recognised is refused before any text
    is extracted, whatever the extractors would have done. *)
Lemma parse_resume_unsupported `{U : Unicode} (pdf docx : list byte -> result str)
    (file_bytes : list byte) (filename : str) :
  endswith (lower filename) (u ".pdf") = false ->
  endswith (lower filename) (u ".doc") = false ->
  endswith (lower filename) (u ".docx") = false ->
  parse_resume pdf docx file_bytes filename = Raise (ValueError unsupported_message).
Proof.
  intros Hpdf Hdoc Hdocx. unfold parse_resume.
  rewrite Hpdf, Hdoc, Hdocx. reflexivity.
Qed.

(** With the extension of a PDF the call is the extraction of the text
    followed by the pipeline; the format check raises nothing. *)
Lemma parse_resume_supported_pdf `{U : Unicode} (pdf docx : list byte -> result str)
    (file_bytes : list byte) (filename : str) :
  endswith (lower filename) (u ".pdf") = true ->
  parse_resume pdf docx file_bytes filename = pdf file_bytes ≫= parse_text.
Proof. intros Hpdf. unfold parse_resume. rewrite Hpdf. reflexivity. Qed.

(** *** Empty text *)

(** C3, as amended: on the empty text the pipeline returns the contact with
    the placeholder name of the source, "Nome não identificado", every other
    contact field absent, no professional summary and four empty lists. *)
Theorem parse_text_empty `{U : Unicode} :
  parse_text [] =
  Ok (ResumeData.mk
        (ContactInfo.mk (u "Nome não identificado") None None None None None)
        None [] [] [] []).
Proof. by_computation. Qed.

(** C3, as stated, fails on the empty text: the name is not the English
    phrase. *)
Lemma parse_text_empty_not_english :
  exists data, @parse_text Latin1 [] = Ok data
    /\ ContactInfo.full_name (ResumeData.contact data) <> u "Name not identified".
Proof.
  exists (ResumeData.mk
            (ContactInfo.mk (u "Nome não identificado") None None None None None)
            None [] [] [] []).
  split; [ by_computation | ].
  cbn [ResumeData.contact ContactInfo.full_name]. differ.
Qed.

(** *** Lines made of separators *)

(** C1 at its failing input: a line of the education bucket that consists of
    a comma leaves no fragment, and [parts[0]] raises; so does the whole
    parse of an accepted file whose text is "Education", newline, ",". *)
Theorem parse_resume_education_comma_raises :
  (forall U : Unicode, @_parse_education U [u ","] = Raise IndexError)
  /\ @parse_resume Latin1 (fun _ => Ok (u "Education" ++ [0x0A] ++ u ","))
       (fun _ => Raise ExtractorError) [] (u "cv.pdf")
     = Raise IndexError.
Proof. split; [ intros U | ]; by_computation. Qed.

(** C2 at its failing input: the file name is accepted, the text is
    "Projects", newline, ":", and the call fails with an error that is not
    the unsupported-format one. *)
Theorem parse_resume_projects_colon_raises :
  (forall U : Unicode, @_parse_projects U [u ":"] = Raise IndexError)
  /\ @parse_resume Latin1 (fun _ => Raise ExtractorError)
       (fun _ => Ok (u "Projects" ++ [0x0A] ++ u ":")) [] (u "CV.Docx")
     = Raise IndexError
  /\ IndexError <> ValueError unsupported_message.
Proof. split; [ intros U; by_computation | split; [ by_computation | discriminate ] ]. Qed.

(** *** Contact *)

(** C7: for the header lines "Jane Doe" and
    "jane@example.com, (11) 98765-4321, São Paulo, Brasil" the contact has the
    first line as full name, the e-mail "jane@example.com", the phone
    "(11) 98765-4321", the location "Brasil", which is the last of the
    comma-separated fragments longer than two characters once trimmed, and
    neither website nor LinkedIn. *)
Theorem extract_contact_jane_doe :
  @_extract_contact Latin1
    [u "Jane Doe"; u "jane@example.com, (11) 98765-4321, São Paulo, Brasil"]
  = ContactInfo.mk (u "Jane Doe") (Some (u "jane@example.com"))
      (Some (u "(11) 98765-4321")) (Some (u "Brasil")) None None.
Proof. by_computation. Qed.

(** *** Strings *)

Lemma prefix_singleton (c x : N) (s : str) : [c] `prefix_of` x :: s <-> c = x.
Proof.
  split.
  - intros [k Hk]. simpl in Hk. congruence.
  - intros ->. exists s. reflexivity.
Qed.

Lemma contains_char (c : N) (s : str) : contains [c] s = bool_decide (c ∈ s).
Proof.
  induction s as [|x s IH].
  - cbn [contains]. rewrite orb_false_r. apply bool_decide_ext. split.
    + intros [k Hk]. discriminate Hk.
    + intros H. inversion H.
  - cbn [contains]. rewrite IH.
    destruct (decide (c = x)) as [->|Hne].
    + rewrite (bool_decide_eq_true_2 _ (proj2 (prefix_singleton x x s) eq_refl)).
      symmetry. apply bool_decide_eq_true_2. left.
    + rewrite bool_decide_eq_false_2 by (rewrite prefix_singleton; exact Hne).
      simpl. apply bool_decide_ext. rewrite elem_of_cons. tauto.
Qed.

Lemma u_semicolon : u ";" = [0x3B].
Proof. by_computation. Qed.
Lemma u_comma : u "," = [0x2C].
Proof. by_computation. Qed.
Lemma u_hyphen : u "-" = [0x2D].
Proof. by_computation. Qed.

Lemma strip_filter_trimmed (parts : list str) :
  strip <$> List.filter (fun part => nonempty (strip part)) parts = trimmed_nonblank parts.
Proof.
  unfold trimmed_nonblank.
  induction parts as [|p parts IH]; [reflexivity|].
  cbn [List.filter omap list_omap]. destruct (strip p) eqn:E; cbn [nonempty].
  - exact IH.
  - rewrite fmap_cons, E, IH. reflexivity.
Qed.

Lemma strip_chars_filter_unbulleted (lines : list str) :
  strip_chars (u "- ") <$> List.filter (fun line => nonempty (strip line)) lines
  = unbulleted lines.
Proof.
  unfold unbulleted.
  induction lines as [|l lines IH]; [reflexivity|].
  cbn [List.filter omap list_omap]. destruct (strip l) eqn:E; cbn [nonempty].
  - exact IH.
  - rewrite fmap_cons, IH. reflexivity.
Qed.

(** *** Skills *)

(** C8, as amended: the delimiters are tried in the order semicolon, comma,
    line, on the lines joined by spaces; a split keeps the trimmed fragments
    that are not empty; without delimiter every line that is not blank gives
    one skill, with the hyphens and spaces removed at both of its ends.  The
    lines ["Python; Go, Rust"] give "Python" and "Go, Rust". *)
Theorem parse_skills_priority (lines : list str) :
  _parse_skills lines =
    (let blob := join (u " ") lines in
     if decide (0x3B ∈ blob) then trimmed_nonblank (split_on 0x3B blob)
     else if decide (0x2C ∈ blob) then trimmed_nonblank (split_on 0x2C blob)
     else unbulleted lines)
  /\ _parse_skills [u "Python; Go, Rust"] = [u "Python"; u "Go, Rust"].
Proof.
  split; [ | by_computation ].
  unfold _parse_skills. cbv zeta.
  rewrite u_semicolon, u_comma, !contains_char, !strip_filter_trimmed,
    strip_chars_filter_unbulleted.
  destruct (decide (59 ∈ join (u " ") lines)) as [H1|H1].
  - rewrite (bool_decide_eq_true_2 _ H1). reflexivity.
  - rewrite (bool_decide_eq_false_2 _ H1).
    destruct (decide (44 ∈ join (u " ") lines)) as [H2|H2].
    + rewrite (bool_decide_eq_true_2 _ H2). reflexivity.
    + rewrite (bool_decide_eq_false_2 _ H2). reflexivity.
Qed.

(** C8, as stated, fails on the line "Go -": removing leading bullet markers
    leaves it as it is, the extractor returns "Go". *)
Lemma parse_skills_trailing_hyphen :
  _parse_skills [u "Go -"] = [u "Go"]
  /\ _parse_skills [u "Go -"] <> without_leading_bullets <$> [u "Go -"].
Proof. split; [ by_computation | differ ]. Qed.

(** *** Determinism *)

Section Invocations.
Context `{U : Unicode}.







End Invocations.


(** *** Section headings *)

Section RegexFacts.
Context `{U : Unicode}.

Lemma rx_match_lit (kw b a b' a' : str) :
  (b', a') ∈ rx_match (lit kw) b a <-> a = kw ++ a' /\ b' = reverse kw ++ b.
Proof.
  revert b a. induction kw as [|c kw IH]; intros b a.
  - cbn. rewrite list_elem_of_singleton. split.
    + intros [= -> ->]. auto.
    + intros [-> ->]. reflexivity.
  - change (lit (c :: kw)) with (Cat (Lit c) (lit kw)). cbn [rx_match].
    rewrite list_elem_of_bind. split.
    + intros [[b1 a1] [H2 H1]]. destruct a as [|x a]; [inversion H1|].
      destruct (N.eqb_spec x c) as [->|Hne]; [|inversion H1].
      apply list_elem_of_singleton in H1. injection H1 as -> ->.
      apply IH in H2 as [-> ->]. split; [reflexivity|].
      rewrite reverse_cons, <- app_assoc. reflexivity.
    + intros [-> ->]. exists (c :: b, kw ++ a'). split.
      * apply IH. split; [reflexivity|]. rewrite reverse_cons, <- app_assoc. reflexivity.
      * cbn. rewrite N.eqb_refl. left.
Qed.

Lemma rx_match_keyword (kw b a b' a' : str) :
  (b', a') ∈ rx_match (keyword_pattern kw) b a <->
  at_boundary b a = true /\ a = kw ++ a' /\ b' = reverse kw ++ b
  /\ at_boundary b' a' = true.
Proof.
  unfold keyword_pattern. cbn [rx_match]. split.
  - intros H. apply list_elem_of_bind in H as [[b1 a1] [H2 H1]].
    destruct (at_boundary b a) eqn:E1; [|inversion H1].
    apply list_elem_of_singleton in H1. injection H1 as -> ->.
    apply list_elem_of_bind in H2 as [[b2 a2] [H3 H2]].
    apply rx_match_lit in H2 as [-> ->].
    destruct (at_boundary (reverse kw ++ b) a2) eqn:E2; [|inversion H3].
    apply list_elem_of_singleton in H3. injection H3 as -> ->. auto.
  - intros (E1 & -> & -> & E2). apply list_elem_of_bind.
    exists (b, kw ++ a'). rewrite E1. split; [|left].
    apply list_elem_of_bind. exists (reverse kw ++ b, a'). split.
    + rewrite E2. left.
    + apply rx_match_lit. auto.
Qed.

Lemma match_here_found (r : regex) (b a : str) :
  found (match_here r b a) = true <-> exists p, p ∈ rx_match r b a.
Proof.
  unfold match_here. destruct (rx_match r b a) as [|[b' a'] l]; cbn.
  - split; [discriminate|]. intros [p Hp]. inversion Hp.
  - split; [|reflexivity]. intros _. eexists. left.
Qed.

Lemma search_from_found (r : regex) (b a : str) :
  found (search_from r b a) = true <->
  exists x y p, a = x ++ y /\ p ∈ rx_match r (reverse x ++ b) y.
Proof.
  revert b. induction a as [|c a IH]; intros b; cbn [search_from].
  - destruct (match_here r b []) eqn:E.
    + split; [|reflexivity]. intros _.
      assert (Hf : found (match_here r b []) = true) by (rewrite E; reflexivity).
      apply match_here_found in Hf as [p Hp]. exists [], [], p. auto.
    + split; [discriminate|]. intros (x & y & p & Hxy & Hp).
      symmetry in Hxy. apply app_eq_nil in Hxy as [-> ->].
      assert (Hf : found (match_here r b []) = true) by (apply match_here_found; eauto).
      rewrite E in Hf. discriminate.
  - destruct (match_here r b (c :: a)) eqn:E.
    + split; [|reflexivity]. intros _.
      assert (Hf : found (match_here r b (c :: a)) = true) by (rewrite E; reflexivity).
      apply match_here_found in Hf as [p Hp]. exists [], (c :: a), p. auto.
    + rewrite IH. split.
      * intros (x & y & p & -> & Hp). exists (c :: x), y, p. split; [reflexivity|].
        rewrite reverse_cons, <- app_assoc. exact Hp.
      * intros (x & y & p & Hxy & Hp). destruct x as [|c' x].
        -- cbn in Hxy. subst y.
           assert (Hf : found (match_here r b (c :: a)) = true)
             by (apply match_here_found; eauto).
           rewrite E in Hf. discriminate.
        -- injection Hxy as <- ->. exists x, y, p. split; [reflexivity|].
           rewrite reverse_cons, <- app_assoc in Hp. exact Hp.
Qed.

Lemma at_boundary_edge (pre post : str) :
  at_boundary (reverse pre) post = true <-> word_edge pre post.
Proof.
  unfold at_boundary, word_edge. rewrite head_reverse.
  destruct (is_word_at (last pre)), (is_word_at (head post)); cbn; split; congruence.
Qed.

(** The search for [\bkeyword\b] finds exactly the whole-word occurrences. *)
Lemma search_keyword (keyword s : str) :
  found (re_search (keyword_pattern keyword) s) = true <-> whole_word_in keyword s.
Proof.
  unfold re_search, whole_word_in. rewrite search_from_found. split.
  - intros (x & y & [b' a'] & -> & Hp). rewrite app_nil_r in Hp.
    apply rx_match_keyword in Hp as (E1 & -> & -> & E2).
    exists x, a'. split; [reflexivity|].
    rewrite <- reverse_app in E2. rewrite at_boundary_edge in E1, E2. auto.
  - intros (pre & post & -> & E1 & E2).
    exists pre, (keyword ++ post), (reverse keyword ++ reverse pre, post).
    split; [reflexivity|]. rewrite app_nil_r. apply rx_match_keyword.
    rewrite <- reverse_app, !at_boundary_edge. auto.
Qed.

Lemma existsb_keywords (keywords : list str) (line : str) :
  existsb (fun keyword => found (re_search (keyword_pattern keyword) (lower line))) keywords = true
  <-> matches_section keywords line.
Proof.
  unfold matches_section. rewrite existsb_exists. split.
  - intros (k & Hin & Hk). exists k. rewrite list_elem_of_In, <- search_keyword. auto.
  - intros (k & Hin & Hk). exists k. rewrite <- list_elem_of_In, search_keyword. auto.
Qed.

(** The loop returns the section of the first entry that matches. *)
Lemma detect_in_first (table : list (str * list str)) (line section : str) :
  detect_in table (lower line) = Some section <->
  exists i keywords,
    table !! i = Some (section, keywords) /\ matches_section keywords line
    /\ forall j section' keywords', (j < i)%nat ->
         table !! j = Some (section', keywords') -> ~ matches_section keywords' line.
Proof.
  induction table as [|[s ks] table IH]; cbn [detect_in].
  - split; [discriminate|]. intros (i & k & H & _). rewrite lookup_nil in H. discriminate.
  - destruct (existsb _ ks) eqn:E.
    + apply existsb_keywords in E. split.
      * intros [= <-]. exists 0%nat, ks. split; [reflexivity|]. split; [exact E|].
        intros j s' k' Hj. lia.
      * intros (i & k & Hi & Hm & Hfirst). destruct i as [|i].
        -- cbn in Hi. congruence.
        -- exfalso. apply (Hfirst 0%nat s ks); [lia|reflexivity|exact E].
    + assert (Hn : ~ matches_section ks line).
      { rewrite <- existsb_keywords, E. discriminate. }
      rewrite IH. split.
      * intros (i & k & Hi & Hm & Hfirst). exists (S i), k. split; [exact Hi|].
        split; [exact Hm|]. intros j s' k' Hj Hlook. destruct j as [|j].
        -- cbn in Hlook. injection Hlook as <- <-. exact Hn.
        -- apply (Hfirst j s' k'); [lia|exact Hlook].
      * intros (i & k & Hi & Hm & Hfirst). destruct i as [|i].
        -- cbn in Hi. injection Hi as <- <-. contradiction.
        -- exists i, k. split; [exact Hi|]. split; [exact Hm|].
           intros j s' k' Hj Hlook. apply (Hfirst (S j) s' k'); [lia|exact Hlook].
Qed.

End RegexFacts.

(** C5: the keyword mapping lists experience, education, skills, projects,
    summary in this order, and a line is resolved to the first section of
    the mapping one of whose keywords it contains as a whole word, whatever
    later sections it also matches. *)
Theorem detect_section_first_declared `{U : Unicode} (line : str) :
  SECTION_KEYWORDS.*1
    = [u "experience"; u "education"; u "skills"; u "projects"; u "summary"]
  /\ forall section, _detect_section line = Some section <->
       exists i keywords,
         SECTION_KEYWORDS !! i = Some (section, keywords)
         /\ matches_section keywords line
         /\ forall j section' keywords', (j < i)%nat ->
              SECTION_KEYWORDS !! j = Some (section', keywords') ->
              ~ matches_section keywords' line.
Proof.
  split; [by_computation|]. intros section. apply detect_in_first.
Qed.

(** *** Segmentation *)

Section Segmenter.
Context `{U : Unicode}.

Lemma detect_in_heading (table : list (str * list str)) (line : str) :
  is_Some (detect_in table (lower line)) <->
  exists section keywords, (section, keywords) ∈ table /\ matches_section keywords line.
Proof.
  induction table as [|[s ks] table IH]; cbn [detect_in].
  - split; [intros [x Hx]; discriminate|]. intros (s & ks & Hin & _). inversion Hin.
  - destruct (existsb _ ks) eqn:E.
    + apply existsb_keywords in E. split; [|eauto]. intros _. exists s, ks. split; [left|exact E].
    + assert (Hn : ~ matches_section ks line).
      { rewrite <- existsb_keywords, E. discriminate. }
      rewrite IH. split.
      * intros (s' & ks' & Hin & Hm). exists s', ks'. split; [right; exact Hin|exact Hm].
      * intros (s' & ks' & Hin & Hm). apply elem_of_cons in Hin as [[= -> ->]|Hin].
        -- contradiction.
        -- eauto.
Qed.

Lemma detect_section_heading (line : str) :
  is_Some (_detect_section line) <-> is_heading line.
Proof. apply detect_in_heading. Qed.

Lemma detect_none_not_heading (line : str) :
  _detect_section line = None <-> ~ is_heading line.
Proof.
  rewrite <- detect_section_heading. destruct (_detect_section line); split.
  - discriminate.
  - intros H. exfalso. apply H. eauto.
  - intros _ [x Hx]. discriminate.
  - reflexivity.
Qed.

Lemma detect_in_key (table : list (str * list str)) (s d : str) :
  detect_in table s = Some d -> d ∈ table.*1.
Proof.
  induction table as [|[sec ks] table IH]; cbn [detect_in]; [discriminate|].
  destruct (existsb _ ks).
  - intros [= <-]. left.
  - intros H. right. exact (IH H).
Qed.

Lemma keys_in_section_ids (d : str) : d ∈ SECTION_KEYWORDS.*1 -> d ∈ section_ids /\ d <> [].
Proof.
  intros H.
  assert (Hk : SECTION_KEYWORDS.*1
               = [u "experience"; u "education"; u "skills"; u "projects"; u "summary"])
    by by_computation.
  rewrite Hk in H. unfold section_ids. split.
  - right. exact H.
  - intros ->. revert H. apply (bool_decide_eq_false_1 _). by_computation.
Qed.

Lemma detect_section_key (line d : str) :
  _detect_section line = Some d -> d ∈ section_ids /\ d <> [].
Proof. intros H. apply keys_in_section_ids. exact (detect_in_key _ _ _ H). Qed.

Lemma cursor_after_snoc (pre : list str) (line : str) :
  cursor_after (pre ++ [line]) =
  match _detect_section line with
  | Some d => d
  | None => cursor_after pre
  end.
Proof.
  unfold cursor_after. rewrite omap_app. cbn [omap list_omap].
  destruct (_detect_section line) as [d|].
  - rewrite last_snoc. reflexivity.
  - rewrite app_nil_r. reflexivity.
Qed.

Lemma cursor_after_section_id (pre : list str) : cursor_after pre ∈ section_ids.
Proof.
  induction pre as [|line pre IH] using rev_ind.
  - left.
  - rewrite cursor_after_snoc. destruct (_detect_section line) as [d|] eqn:E; [|exact IH].
    apply (detect_section_key _ _ E).
Qed.

Lemma cursor_after_no_heading (pre : list str) :
  Forall (fun line => ~ is_heading line) pre -> cursor_after pre = u "header".
Proof.
  induction pre as [|line pre IH] using rev_ind; [reflexivity|].
  intros H. apply Forall_app in H as [Hpre Hline]. rewrite cursor_after_snoc.
  apply Forall_singleton, detect_none_not_heading in Hline. rewrite Hline. auto.
Qed.

Lemma bucket_after_cons (pre : list str) (k line : str) (lines : list str) :
  bucket_after pre k (line :: lines) =
  (if decide (_detect_section line = None /\ cursor_after pre = k) then [line] else [])
  ++ bucket_after (pre ++ [line]) k lines.
Proof.
  unfold bucket_after. cbn [imap omap list_omap]. rewrite app_nil_r.
  assert (Hext :
    imap ((fun i l => if decide (_detect_section l = None
                                 /\ cursor_after (pre ++ take i (line :: lines)) = k)
                      then Some l else None) ∘ S) lines
    = imap (fun i l => if decide (_detect_section l = None
                                  /\ cursor_after ((pre ++ [line]) ++ take i lines) = k)
                       then Some l else None) lines).
  { apply imap_ext. intros i l _. cbn. rewrite <- app_assoc. reflexivity. }
  rewrite Hext. destruct (decide _); reflexivity.
Qed.

Lemma get_append_to (cur line k : str) (m : gmap str (list str)) :
  get (append_to cur line m) k = get m k ++ (if decide (cur = k) then [line] else []).
Proof.
  unfold get, append_to. destruct (decide (cur = k)) as [->|Hne].
  - rewrite lookup_insert_eq. reflexivity.
  - rewrite lookup_insert_ne by exact Hne. rewrite app_nil_r. reflexivity.
Qed.

(** The loop appends to every bucket the lines the specification assigns to
    it. *)
Lemma split_loop_buckets (lines pre : list str) (m : gmap str (list str)) (k : str) :
  get (split_loop lines (cursor_after pre) m) k = get m k ++ bucket_after pre k lines.
Proof.
  revert pre m. induction lines as [|line lines IH]; intros pre m.
  - cbn. rewrite app_nil_r. reflexivity.
  - cbn [split_loop]. rewrite bucket_after_cons.
    pose proof (cursor_after_snoc pre line) as Hc.
    destruct (_detect_section line) as [[|c d]|] eqn:E.
    + exfalso. apply (detect_section_key _ _ E). reflexivity.
    + rewrite <- Hc, IH. rewrite decide_False by (intros [? _]; discriminate). reflexivity.
    + rewrite <- Hc at 1. rewrite IH, get_append_to, <- app_assoc. f_equal.
      destruct (decide (cursor_after pre = k)) as [Hk|Hk].
      * rewrite decide_True by auto. reflexivity.
      * rewrite decide_False by tauto. reflexivity.
Qed.

Lemma split_loop_dom (lines : list str) (cur : str) (m : gmap str (list str)) :
  cur ∈ dom m -> (forall d, d ∈ section_ids -> d ∈ dom m) ->
  dom (split_loop lines cur m) = dom m.
Proof.
  revert cur m. induction lines as [|line lines IH]; intros cur m Hcur Hids; [reflexivity|].
  cbn [split_loop].
  assert (Happ : dom (split_loop lines cur (append_to cur line m)) = dom m).
  { assert (Hd : dom (append_to cur line m) = dom m).
    { unfold append_to. rewrite dom_insert_L.
      apply subseteq_union_1_L, singleton_subseteq_l. exact Hcur. }
    rewrite IH; rewrite ?Hd; auto. }
  destruct (_detect_section line) as [[|c d]|] eqn:E; [exact Happ| |exact Happ].
  apply IH; [|exact Hids]. apply Hids, (detect_section_key _ _ E).
Qed.

Lemma initial_sections_dom : dom initial_sections = list_to_set section_ids.
Proof. by_computation. Qed.

Lemma initial_sections_get (k : str) : get initial_sections k = [].
Proof.
  unfold get. destruct (initial_sections !! k) as [l|] eqn:E; [|reflexivity].
  cbn. revert E. unfold initial_sections. cbn [foldl SECTION_KEYWORDS].
  rewrite !lookup_insert. repeat (case_decide; [congruence|]). rewrite lookup_empty. discriminate.
Qed.

Lemma split_sections_dom (lines : list str) :
  dom (_split_sections lines) = list_to_set section_ids.
Proof.
  unfold _split_sections. fold initial_sections. rewrite split_loop_dom.
  - apply initial_sections_dom.
  - rewrite initial_sections_dom. apply elem_of_list_to_set. left.
  - intros d Hd. rewrite initial_sections_dom. apply elem_of_list_to_set. exact Hd.
Qed.

Lemma split_sections_get (lines : list str) (k : str) :
  get (_split_sections lines) k = bucket_of k lines.
Proof.
  unfold _split_sections. fold initial_sections.
  change (u "header") with (cursor_after []).
  rewrite split_loop_buckets, initial_sections_get. reflexivity.
Qed.

Lemma bucket_after_elem (pre : list str) (k line : str) (lines : list str) :
  line ∈ bucket_after pre k lines -> line ∈ lines /\ _detect_section line = None.
Proof.
  unfold bucket_after. intros H. apply list_elem_of_omap in H as (o & Ho & Hid).
  cbn in Hid. subst o. apply elem_of_lookup_imap in Ho as (i & l & Hf & Hl).
  destruct (decide _) as [[Hd _]|]; [|discriminate]. injection Hf as ->.
  split; [|exact Hd]. apply list_elem_of_lookup. eauto.
Qed.

End Segmenter.

(** C4: a line is a heading exactly when a keyword of some section occurs in
    its lower-cased text between word boundaries; the result has the six
    keys; the bucket of a section holds, in document order, the lines that
    are not headings and are read while that section is in force, so no
    heading is in any bucket and a line that is not a heading goes to the one
    bucket of the section in force, which is [header] until the first
    heading. *)
Theorem split_sections_buckets `{U : Unicode} (lines : list str) :
  (forall line, is_Some (_detect_section line) <-> is_heading line)
  /\ dom (_split_sections lines) = list_to_set section_ids
  /\ (forall k, k ∈ section_ids -> _split_sections lines !! k = Some (bucket_of k lines))
  /\ (forall k line, line ∈ bucket_of k lines -> line ∈ lines /\ ~ is_heading line)
  /\ (forall pre, cursor_after pre ∈ section_ids)
  /\ (forall pre, Forall (fun line => ~ is_heading line) pre -> cursor_after pre = u "header").
Proof.
  split; [exact detect_section_heading|].
  split; [apply split_sections_dom|].
  split.
  { intros k Hk. pose proof (split_sections_get lines k) as Hg. unfold get in Hg.
    assert (Hs : is_Some (_split_sections lines !! k)).
    { apply elem_of_dom. rewrite split_sections_dom. apply elem_of_list_to_set. exact Hk. }
    destruct Hs as [l Hl]. rewrite Hl in Hg |- *. cbn in Hg. congruence. }
  split.
  { intros k line H. apply bucket_after_elem in H as [Hin Hd]. split; [exact Hin|].
    apply detect_none_not_heading. exact Hd. }
  split; [exact cursor_after_section_id|exact cursor_after_no_heading].
Qed.

(** *** The experience bucket *)

Section Stripping.
Variable p : N -> bool.

Lemma lstrip_by_idem (s : str) : lstrip_by p (lstrip_by p s) = lstrip_by p s.
Proof.
  induction s as [|c s IH]; [reflexivity|]. cbn [lstrip_by].
  destruct (p c) eqn:E; [exact IH|]. cbn [lstrip_by]. rewrite E. reflexivity.
Qed.

Lemma lstrip_by_snoc (s : str) (c : N) :
  p c = false -> lstrip_by p (s ++ [c]) = lstrip_by p s ++ [c].
Proof.
  intros Hc. induction s as [|x s IH]; cbn [lstrip_by app].
  - rewrite Hc. reflexivity.
  - destruct (p x); [exact IH|reflexivity].
Qed.

Lemma rstrip_by_idem (s : str) : rstrip_by p (rstrip_by p s) = rstrip_by p s.
Proof. unfold rstrip_by. rewrite reverse_involutive, lstrip_by_idem. reflexivity. Qed.

(** Stripping at the right leaves in place a first character that is kept at
    the left. *)
Lemma lstrip_rstrip (s : str) :
  lstrip_by p (rstrip_by p (lstrip_by p s)) = rstrip_by p (lstrip_by p s).
Proof.
  destruct (lstrip_by p s) as [|c t] eqn:E; [reflexivity|].
  assert (Hc : p c = false).
  { clear -E. induction s as [|x s IH]; [discriminate|]. cbn [lstrip_by] in E.
    destruct (p x) eqn:Ex; [auto|]. injection E as -> _. exact Ex. }
  unfold rstrip_by. rewrite reverse_cons, (lstrip_by_snoc _ _ Hc), reverse_app.
  cbn. rewrite Hc. reflexivity.
Qed.

Lemma strip_by_idem (s : str) : strip_by p (strip_by p s) = strip_by p s.
Proof. unfold strip_by. rewrite lstrip_rstrip, rstrip_by_idem. reflexivity. Qed.

End Stripping.

Lemma strip_idem (s : str) : strip (strip s) = strip s.
Proof. apply strip_by_idem. Qed.

Lemma nonempty_true (s : str) : nonempty s = true <-> s <> [].
Proof. destruct s; cbn; split; congruence. Qed.

(** The lines of the normalizer are trimmed and not empty. *)
Lemma normalize_lines_elem (text line : str) :
  line ∈ _normalize_lines text -> line <> [] /\ strip line = line.
Proof.
  unfold _normalize_lines. rewrite list_elem_of_In, filter_In, <- list_elem_of_In.
  intros [Hin Hne]. apply nonempty_true in Hne. split; [exact Hne|].
  apply list_elem_of_fmap in Hin as (x & -> & _). apply strip_idem.
Qed.

Section Experience.
Context `{U : Unicode}.

(** A block with a first line gives an item: [lines[0]] is in range. *)
Lemma experience_from_block_ok (header : str) (rest : list str) :
  exists item, _experience_from_block (header :: rest) = Ok item.
Proof.
  unfold _experience_from_block. cbn [getitem lookup list_lookup mbind result_bind].
  repeat case_match; eexists; reflexivity.
Qed.

(** [_parse_experience] never raises: the buffer is flushed only when it has
    a first line. *)
Lemma experience_loop_ok (lines : list str) (experiences : list ExperienceItem.t)
    (buffer : list str) :
  exists items, experience_loop lines experiences buffer = Ok items.
Proof.
  revert experiences buffer. induction lines as [|line lines IH]; intros experiences buffer.
  - eexists. reflexivity.
  - cbn [experience_loop]. destruct (negb (nonempty (strip line)) && _) eqn:E; [|apply IH].
    apply andb_true_iff in E as [_ Hb]. apply negb_true_iff, bool_decide_eq_false in Hb.
    destruct buffer as [|header rest]; [contradiction|].
    destruct (experience_from_block_ok header rest) as [item ->]. apply IH.
Qed.

(** Without a blank line in the bucket the loop reads all of it into the
    buffer and flushes once, at the sentinel. *)
Lemma experience_loop_no_blank (lines : list str) (experiences : list ExperienceItem.t)
    (buffer : list str) :
  Forall (fun line => strip line <> []) lines ->
  experience_loop (lines ++ [[]]) experiences buffer =
  match buffer ++ lines with
  | [] => Ok experiences
  | block => item ← _experience_from_block block; Ok (experiences ++ [item])
  end.
Proof.
  revert buffer. induction lines as [|line lines IH]; intros buffer Hall.
  - rewrite app_nil_r. cbn. destruct buffer as [|header rest]; [reflexivity|].
    cbn. destruct (_experience_from_block (header :: rest)); reflexivity.
  - apply Forall_cons in Hall as [Hline Hall]. cbn [app experience_loop].
    apply nonempty_true in Hline. rewrite Hline. cbn [negb andb].
    rewrite (IH _ Hall), <- app_assoc. reflexivity.
Qed.

Lemma experience_bucket_trimmed (text : str) :
  Forall (fun line => line <> [] /\ strip line = line)
         (get (_split_sections (_normalize_lines text)) (u "experience")).
Proof.
  rewrite split_sections_get. apply Forall_forall. intros line Hin.
  apply bucket_after_elem in Hin as [Hin _]. exact (normalize_lines_elem _ _ Hin).
Qed.

Lemma parse_experience_bucket (text : str) :
  let bucket := get (_split_sections (_normalize_lines text)) (u "experience") in
  _parse_experience bucket =
  match bucket with
  | [] => Ok []
  | _ :: _ => item ← _experience_from_block bucket; Ok [item]
  end.
Proof.
  intros bucket. unfold _parse_experience. rewrite experience_loop_no_blank.
  - cbn [app]. destruct bucket; reflexivity.
  - eapply Forall_impl; [apply experience_bucket_trimmed|].
    intros line [Hne Hs]. rewrite Hs. exact Hne.
Qed.

End Experience.

(** C10: in the pipeline the experience bucket holds only trimmed lines that
    are not empty; the extractor never raises on it, returns no item when it
    is empty and otherwise the one item of the block made of the whole
    bucket, first line first; a parse has at most one experience entry. *)
Theorem parse_experience_single_block `{U : Unicode} (text : str) :
  let bucket := get (_split_sections (_normalize_lines text)) (u "experience") in
  Forall (fun line => line <> [] /\ strip line = line) bucket
  /\ _parse_experience bucket =
     match bucket with
     | [] => Ok []
     | _ :: _ => item ← _experience_from_block bucket; Ok [item]
     end
  /\ (exists items, _parse_experience bucket = Ok items
        /\ length items = (if bool_decide (bucket = []) then 0 else 1)%nat)
  /\ (forall data, parse_text text = Ok data ->
        (length (ResumeData.experiences data) <= 1)%nat).
Proof.
  intros bucket.
  pose proof (parse_experience_bucket text) as Hp. cbv zeta in Hp. fold bucket in Hp.
  assert (Hitems : exists items, _parse_experience bucket = Ok items
            /\ length items = (if bool_decide (bucket = []) then 0 else 1)%nat).
  { rewrite Hp. destruct bucket as [|header rest] eqn:E.
    - exists []. split; reflexivity.
    - destruct (experience_from_block_ok header rest) as [item ->].
      exists [item]. split; reflexivity. }
  split; [apply experience_bucket_trimmed|]. split; [exact Hp|]. split; [exact Hitems|].
  intros data Hdata. unfold parse_text in Hdata. cbv zeta in Hdata. fold bucket in Hdata.
  destruct Hitems as (items & Hi & Hlen). rewrite Hi in Hdata.
  cbn [mbind result_bind] in Hdata.
  destruct (_parse_education _); [|discriminate].
  cbn [mbind result_bind] in Hdata.
  destruct (_parse_projects _); [|discriminate].
  cbn [mbind result_bind mret result_ret] in Hdata. injection Hdata as <-.
  cbn [ResumeData.experiences]. rewrite Hlen. case_bool_decide; lia.
Qed.

(** *** Experience blocks *)

Section Splitting.
Variable p : N -> bool.

Lemma split_where_length (s : str) :
  length (split_where p s) = S (length (List.filter p s)).
Proof.
  induction s as [|c s IH]; [reflexivity|]. cbn [split_where List.filter].
  destruct (p c); cbn [length]; [rewrite IH; reflexivity|].
  destruct (split_where p s); cbn [length] in *; lia.
Qed.

Lemma split_where_single (s piece : str) :
  split_where p s = [piece] -> s = piece.
Proof.
  revert piece. induction s as [|c s IH]; intros piece; cbn [split_where].
  - congruence.
  - destruct (p c).
    + intros [= _ H]. pose proof (split_where_length s) as Hl. rewrite H in Hl. discriminate.
    + destruct (split_where p s) as [|x xs] eqn:E.
      * pose proof (split_where_length s) as Hl. rewrite E in Hl. discriminate.
      * intros [= <- ->]. rewrite (IH x eq_refl). reflexivity.
Qed.

Lemma split_where_pair (s left right : str) :
  split_where p s = [left; right] ->
  exists c, p c = true /\ s = left ++ c :: right.
Proof.
  revert left. induction s as [|c s IH]; intros left; cbn [split_where]; [discriminate|].
  destruct (p c) eqn:Ec.
  - intros [= <- H]. apply split_where_single in H as ->. exists c. auto.
  - destruct (split_where p s) as [|x xs] eqn:E; [discriminate|].
    intros [= <- ->]. destruct (IH x eq_refl) as (c' & Hc' & ->). exists c'. auto.
Qed.

End Splitting.

Lemma split_once_found (sep : N) (s : str) :
  sep ∈ s ->
  exists left right,
    s = left ++ sep :: right /\ (sep ∉ left) /\ split_once sep s = [left; right].
Proof.
  induction s as [|c s IH]; intros Hin; [inversion Hin|]. cbn [split_once].
  destruct (N.eqb_spec c sep) as [->|Hne].
  - exists [], s. split; [reflexivity|]. split; [apply not_elem_of_nil|reflexivity].
  - apply elem_of_cons in Hin as [->|Hin]; [contradiction|].
    destruct (IH Hin) as (l & r & -> & Hl & ->). exists (c :: l), r.
    split; [reflexivity|]. split; [|reflexivity].
    rewrite not_elem_of_cons. split; [congruence|exact Hl].
Qed.

Section DateSplit.
Context `{U : Unicode}.

Lemma match_here_date_separator (b : str) (c : N) (a : str) :
  match_here date_separator b (c :: a) = if is_dash c then Some [c] else None.
Proof.
  unfold match_here, date_separator, is_dash. cbn [rx_match].
  assert (Hl : (length (c :: a) - length a = 1)%nat) by (cbn [length]; lia).
  destruct (c =? 45); [cbn [app orb]; rewrite Hl; reflexivity|].
  destruct (c =? 8211); [cbn [app orb]; rewrite Hl; reflexivity|]. reflexivity.
Qed.

Lemma split_from_date_separator (cur b a : str) :
  split_from date_separator O cur b a =
  match split_where is_dash a with
  | piece :: pieces => (reverse cur ++ piece) :: pieces
  | [] => []
  end.
Proof.
  revert cur b. induction a as [|c a IH]; intros cur b.
  - cbn. rewrite app_nil_r. reflexivity.
  - cbn [split_from split_where]. rewrite match_here_date_separator.
    destruct (is_dash c).
    + cbn [length]. rewrite IH, app_nil_r.
      destruct (split_where is_dash a) as [|x xs] eqn:E; [|reflexivity].
      pose proof (split_where_length is_dash a) as Hl. rewrite E in Hl. discriminate.
    + rewrite IH. destruct (split_where is_dash a) as [|x xs] eqn:E.
      * pose proof (split_where_length is_dash a) as Hl. rewrite E in Hl. discriminate.
      * rewrite reverse_cons, <- app_assoc. reflexivity.
Qed.

(** [re.split(r"-|–", s)] cuts at every hyphen and en dash. *)
Lemma re_split_date_separator (s : str) :
  re_split date_separator s = split_where is_dash s.
Proof.
  unfold re_split. rewrite split_from_date_separator.
  destruct (split_where is_dash s) as [|x xs] eqn:E; [|reflexivity].
  pose proof (split_where_length is_dash s) as Hl. rewrite E in Hl. discriminate.
Qed.

End DateSplit.

(** C6, as amended: the header of a block is its first line.  With a hyphen
    in it, the trimmed text before the first hyphen is the company and the
    trimmed text after it the role; without one the trimmed header is the
    role and there is no company.  When the date pattern is found in the
    header, the block lines that contain the matched text are left out of the
    highlights, and the matched text gives the trimmed start and end dates
    if it has exactly one hyphen or en dash, at which it is cut; with none or
    several of them both dates are absent.  The header
    "Acme Corp - Senior Engineer (2019 - 2022)" gives the company "Acme Corp",
    the role "Senior Engineer (2019 - 2022)" and the dates "2019" and
    "2022". *)
Theorem experience_from_block_fields `{U : Unicode} (header : str) (rest : list str) :
  (exists item, _experience_from_block (header :: rest) = Ok item
    /\ (if decide (0x2D ∈ header)
        then exists left right,
               header = left ++ 0x2D :: right /\ (0x2D ∉ left)
               /\ ExperienceItem.company item = Some (strip left)
               /\ ExperienceItem.role item = strip right
        else ExperienceItem.company item = None
             /\ ExperienceItem.role item = strip header)
    /\ match re_search date_pattern header with
       | None =>
         ExperienceItem.start_date item = None /\ ExperienceItem.end_date item = None
         /\ ExperienceItem.highlights item = unbulleted rest
       | Some date_text =>
         ExperienceItem.highlights item
           = unbulleted (List.filter (fun line => negb (contains date_text line)) rest)
         /\ ((length (List.filter is_dash date_text) = 1%nat
              /\ exists s c e, is_dash c = true /\ date_text = s ++ c :: e
                   /\ ExperienceItem.start_date item = Some (strip s)
                   /\ ExperienceItem.end_date item = Some (strip e))
             \/ (length (List.filter is_dash date_text) <> 1%nat
                 /\ ExperienceItem.start_date item = None
                 /\ ExperienceItem.end_date item = None))
       end)
  /\ @_experience_from_block Latin1 [u "Acme Corp - Senior Engineer (2019 - 2022)"]
     = Ok (ExperienceItem.mk (u "Senior Engineer (2019 - 2022)") (Some (u "Acme Corp"))
             (Some (u "2019")) (Some (u "2022")) None []).
Proof.
  split; [|by_computation].
  unfold _experience_from_block.
  cbn [getitem lookup list_lookup mbind result_bind drop].
  rewrite u_hyphen, contains_char.
  assert (Hdates : forall date_text : str,
    let dates := match split_where is_dash date_text with
                 | [s; e] => (Some (strip s), Some (strip e))
                 | _ => (None, None)
                 end in
    (length (List.filter is_dash date_text) = 1%nat
     /\ exists s c e, is_dash c = true /\ date_text = s ++ c :: e
          /\ dates.1 = Some (strip s) /\ dates.2 = Some (strip e))
    \/ (length (List.filter is_dash date_text) <> 1%nat
        /\ dates.1 = None /\ dates.2 = None)).
  { intros d. pose proof (split_where_length is_dash d) as Hl.
    pose proof (split_where_pair is_dash d) as Hp. cbv zeta.
    destruct (split_where is_dash d) as [|s [|e [|x xs]]]; cbn [length] in Hl;
      try (right; split; [lia|split; reflexivity]).
    left. split; [lia|]. destruct (Hp s e eq_refl) as (c & Hc & ->).
    exists s, c, e. auto. }
  destruct (decide (45 ∈ header)) as [Hin|Hnin].
  - rewrite (bool_decide_eq_true_2 _ Hin).
    destruct (split_once_found _ _ Hin) as (left & right & Hh & Hl & Hs).
    rewrite Hs. cbn [fmap list_fmap]. lazy beta iota zeta. rewrite strip_idem.
    destruct (re_search date_pattern header) as [d|].
    + rewrite re_split_date_separator, strip_chars_filter_unbulleted.
      eexists. split; [reflexivity|]. cbn [ExperienceItem.company ExperienceItem.role
        ExperienceItem.start_date ExperienceItem.end_date ExperienceItem.highlights].
      split; [exists left, right; auto|]. split; [reflexivity|]. apply Hdates.
    + rewrite strip_chars_filter_unbulleted.
      eexists. split; [reflexivity|]. cbn. split; [exists left, right; auto|]. auto.
  - rewrite (bool_decide_eq_false_2 _ Hnin).
    destruct (re_search date_pattern header) as [d|].
    + rewrite re_split_date_separator, strip_chars_filter_unbulleted.
      eexists. split; [reflexivity|]. cbn [ExperienceItem.company ExperienceItem.role
        ExperienceItem.start_date ExperienceItem.end_date ExperienceItem.highlights].
      split; [auto|]. split; [reflexivity|]. apply Hdates.
    + rewrite strip_chars_filter_unbulleted.
      eexists. split; [reflexivity|]. cbn. auto.
Qed.

(** C6, as stated, fails on the header "2019 to 2022": the date pattern is
    found in it, and the item has no start and no end date. *)
Lemma experience_from_block_no_dash :
  @re_search Latin1 (@date_pattern Latin1) (u "2019 to 2022") = Some (u "2019 to 2022")
  /\ @_experience_from_block Latin1 [u "2019 to 2022"]
     = Ok (ExperienceItem.mk (u "2019 to 2022") None None None None []).
Proof. split; by_computation. Qed.

(** ** Further properties of the parser and of its caller *)

(** *** Matches as spans of the text *)

Lemma rx_repeat_span (p : N -> bool) (lo : nat) (hi : option nat) (b a b' a' : str) :
  (b', a') ∈ rx_repeat p lo hi b a ->
  exists m, a = m ++ a' /\ b' = reverse m ++ b
    /\ Forall (fun c => p c = true) m /\ (lo <= length m)%nat.
Proof.
  revert lo hi b. induction a as [|c a IH]; intros lo hi b H.
  - cbn in H. destruct lo; [|inversion H].
    apply list_elem_of_singleton in H. injection H as -> ->.
    exists []. repeat split; auto.
  - cbn [rx_repeat] in H.
    assert (Hstop : (b', a') ∈ match lo with O => [(b, c :: a)] | S _ => [] end ->
              exists m, c :: a = m ++ a' /\ b' = reverse m ++ b
                /\ Forall (fun c => p c = true) m /\ (lo <= length m)%nat).
    { destruct lo; [|intros Hs; inversion Hs]. intros Hs.
      apply list_elem_of_singleton in Hs. injection Hs as -> ->.
      exists []. repeat split; auto. }
    destruct (p c && _) eqn:E; [|exact (Hstop H)].
    apply elem_of_app in H as [H|H]; [|exact (Hstop H)].
    apply andb_true_iff in E as [Hc _].
    apply IH in H as (m & -> & -> & Hall & Hlo). exists (c :: m).
    split; [reflexivity|]. split; [rewrite reverse_cons, <- app_assoc; reflexivity|].
    split; [constructor; assumption|]. cbn [length]. lia.
Qed.

Lemma rx_repeat_zero_nonempty (p : N -> bool) (hi : option nat) (b a : str) :
  rx_repeat p 0 hi b a <> [].
Proof.
  destruct a as [|c a]; cbn; [discriminate|].
  destruct (p c && _); [|discriminate].
  intros H. apply app_eq_nil in H as [_ H]. discriminate.
Qed.

(** The preferred repetition takes every character it can. *)
Lemma rx_repeat_head (p : N -> bool) (lo : nat) (b a b' a' : str) :
  head (rx_repeat p lo None b a) = Some (b', a') ->
  exists m, a = m ++ a' /\ b' = reverse m ++ b
    /\ Forall (fun c => p c = true) m /\ (lo <= length m)%nat
    /\ (head a' = None \/ exists c, head a' = Some c /\ p c = false).
Proof.
  revert lo b. induction a as [|c a IH]; intros lo b H.
  - cbn in H. destruct lo; [|discriminate]. injection H as <- <-.
    exists []. repeat split; auto.
  - cbn [rx_repeat] in H. destruct (p c) eqn:Ec; cbn [andb] in H.
    + assert (Hrec : head (rx_repeat p (Nat.pred lo) (Nat.pred <$> None) (c :: b) a)
                     = Some (b', a')).
      { destruct lo as [|lo].
        - pose proof (rx_repeat_zero_nonempty p (Nat.pred <$> None) (c :: b) a) as Hne.
          cbn [Nat.pred] in H |- *.
          destruct (rx_repeat p 0 (Nat.pred <$> None) (c :: b) a); [contradiction|exact H].
        - rewrite app_nil_r in H. exact H. }
      apply IH in Hrec as (m & -> & -> & Hall & Hlo & Hend). exists (c :: m).
      split; [reflexivity|]. split; [rewrite reverse_cons, <- app_assoc; reflexivity|].
      split; [constructor; assumption|]. split; [cbn [length]; lia|exact Hend].
    + destruct lo; [|discriminate]. injection H as <- <-.
      exists []. repeat split; auto. right. exists c. auto.
Qed.

Lemma head_bind {A B} (f : A -> list B) (l : list A) (y : B) :
  head (l ≫= f) = Some y -> exists x, x ∈ l /\ head (f x) = Some y.
Proof.
  induction l as [|x l IH]; [discriminate|]. rewrite bind_cons.
  destruct (f x) as [|z zs] eqn:E; cbn [app].
  - intros H. destruct (IH H) as (x' & Hin & Hx'). exists x'. split; [right; exact Hin|exact Hx'].
  - intros H. exists x. split; [left|]. rewrite E. exact H.
Qed.

Lemma u_http_scheme : u "http://" = u "http" ++ u "://".
Proof. by_computation. Qed.
Lemma u_https_scheme : u "https://" = u "http" ++ [0x73] ++ u "://".
Proof. by_computation. Qed.

Section RegexSpans.
Context `{U : Unicode}.

(** A match consumes a piece of the text after the position and moves it,
    reversed, before the position. *)
Lemma rx_match_span (r : regex) (b a b' a' : str) :
  (b', a') ∈ rx_match r b a -> exists m, a = m ++ a' /\ b' = reverse m ++ b.
Proof.
  revert b a b' a'. induction r as [|c|c|p|r1 IH1 r2 IH2|r1 IH1 r2 IH2|r1 IH1|lo hi p|];
    intros b a b' a' H; cbn [rx_match] in H.
  - apply list_elem_of_singleton in H. injection H as -> ->. exists []. auto.
  - destruct a as [|x a]; [inversion H|]. destruct (x =? c); [|inversion H].
    apply list_elem_of_singleton in H. injection H as -> ->. exists [x]. auto.
  - destruct a as [|x a]; [inversion H|]. destruct (icase_eq c x); [|inversion H].
    apply list_elem_of_singleton in H. injection H as -> ->. exists [x]. auto.
  - destruct a as [|x a]; [inversion H|]. destruct (p x); [|inversion H].
    apply list_elem_of_singleton in H. injection H as -> ->. exists [x]. auto.
  - apply list_elem_of_bind in H as [[b1 a1] [H2 H1]].
    apply IH1 in H1 as (m1 & -> & ->). apply IH2 in H2 as (m2 & -> & ->).
    exists (m1 ++ m2). rewrite reverse_app, <- !app_assoc. auto.
  - apply elem_of_app in H as [H|H]; [exact (IH1 _ _ _ _ H)|exact (IH2 _ _ _ _ H)].
  - apply elem_of_app in H as [H|H]; [exact (IH1 _ _ _ _ H)|].
    apply list_elem_of_singleton in H. injection H as -> ->. exists []. auto.
  - apply rx_repeat_span in H as (m & ? & ? & _). eauto.
  - destruct (at_boundary b a); [|inversion H].
    apply list_elem_of_singleton in H. injection H as -> ->. exists []. auto.
Qed.

Lemma match_here_span (r : regex) (b a m : str) :
  match_here r b a = Some m ->
  exists a', a = m ++ a' /\ head (rx_match r b a) = Some (reverse m ++ b, a').
Proof.
  unfold match_here. destruct (rx_match r b a) as [|[b' a'] l] eqn:E; [discriminate|].
  intros [= <-].
  assert (Hin : (b', a') ∈ rx_match r b a) by (rewrite E; left).
  apply rx_match_span in Hin as (m & -> & ->). exists a'.
  rewrite length_app, Nat.add_sub, take_app_length. auto.
Qed.

(** [re.search] returns a piece of the text, matched at the place where it
    stands. *)
Lemma search_from_span (r : regex) (b a m : str) :
  search_from r b a = Some m ->
  exists pre post, a = pre ++ m ++ post
    /\ head (rx_match r (reverse pre ++ b) (m ++ post))
       = Some (reverse m ++ reverse pre ++ b, post).
Proof.
  revert b. induction a as [|c a IH]; intros b; cbn [search_from].
  - destruct (match_here r b []) as [m'|] eqn:E; [|discriminate]. intros [= ->].
    apply match_here_span in E as (a' & Ha & Hh). exists [], a'. rewrite Ha in Hh. auto.
  - destruct (match_here r b (c :: a)) as [m'|] eqn:E.
    + intros [= ->]. apply match_here_span in E as (a' & Ha & Hh).
      exists [], a'. rewrite Ha in Hh. auto.
    + intros H. apply IH in H as (pre & post & -> & Hh). exists (c :: pre), post.
      split; [reflexivity|]. rewrite reverse_cons, <- app_assoc. exact Hh.
Qed.

(** [re.search] returns the match that begins first: the pattern matches at
    no earlier position. *)
Lemma search_from_leftmost (r : regex) (b a m : str) :
  search_from r b a = Some m ->
  exists pre post, a = pre ++ m ++ post
    /\ head (rx_match r (reverse pre ++ b) (m ++ post))
       = Some (reverse m ++ reverse pre ++ b, post)
    /\ (forall x y, a = x ++ y -> (length x < length pre)%nat ->
          rx_match r (reverse x ++ b) y = []).
Proof.
  revert b. induction a as [|c a IH]; intros b; cbn [search_from].
  - destruct (match_here r b []) as [m'|] eqn:E; [|discriminate]. intros [= ->].
    apply match_here_span in E as (a' & Ha & Hh). exists [], a'. rewrite Ha in Hh.
    split; [exact Ha|]. split; [exact Hh|]. intros x y _ Hlt. cbn [length] in Hlt. lia.
  - destruct (match_here r b (c :: a)) as [m'|] eqn:E.
    + intros [= ->]. apply match_here_span in E as (a' & Ha & Hh).
      exists [], a'. rewrite Ha in Hh.
      split; [exact Ha|]. split; [exact Hh|]. intros x y _ Hlt. cbn [length] in Hlt. lia.
    + intros H. apply IH in H as (pre & post & -> & Hh & Hleft). exists (c :: pre), post.
      split; [reflexivity|]. split; [rewrite reverse_cons, <- app_assoc; exact Hh|].
      intros x y Hxy Hlt. destruct x as [|c' x].
      * cbn [app] in Hxy. subst y. cbn [reverse rev_append app]. unfold match_here in E.
        destruct (rx_match r b (c :: pre ++ m ++ post)) as [|[b' a'] l]; [reflexivity|discriminate].
      * injection Hxy as <- Hxy. rewrite reverse_cons, <- app_assoc.
        apply Hleft; [exact Hxy|]. cbn [length] in Hlt. lia.
Qed.

Lemma re_search_infix (r : regex) (s m : str) :
  re_search r s = Some m -> exists pre post, s = pre ++ m ++ post.
Proof.
  intros H. apply search_from_span in H as (pre & post & ? & _). eauto.
Qed.

Lemma head_rx_match_cat (r1 r2 : regex) (b a : str) (y : str * str) :
  head (rx_match (Cat r1 r2) b a) = Some y ->
  exists b1 a1, (b1, a1) ∈ rx_match r1 b a /\ head (rx_match r2 b1 a1) = Some y.
Proof.
  cbn [rx_match]. intros H. apply head_bind in H as ([b1 a1] & Hin & Hh). eauto.
Qed.

(** A match of [https?://[^\s]+]: the scheme, then every character up to the
    next white space or the end of the text, at least one. *)
Lemma url_match_shape (b a b' a' : str) :
  head (rx_match url_pattern b a) = Some (b', a') ->
  exists rest,
    (a = u "http://" ++ rest ++ a' \/ a = u "https://" ++ rest ++ a')
    /\ rest <> [] /\ Forall (fun c => isspace c = false) rest
    /\ (head a' = None \/ exists c, head a' = Some c /\ isspace c = true).
Proof.
  unfold url_pattern. intros H.
  apply head_rx_match_cat in H as (b1 & a1 & H1 & H).
  apply rx_match_lit in H1 as [Ha1 _].
  apply head_rx_match_cat in H as (b2 & a2 & H2 & H).
  apply head_rx_match_cat in H as (b3 & a3 & H3 & H).
  apply rx_match_lit in H3 as [Ha3 _].
  apply rx_repeat_head in H as (rest & Hrest & _ & Hall & Hlen & Hend).
  exists rest.
  assert (Ha1' : a1 = a2 \/ a1 = 0x73 :: a2).
  { cbn [rx_match] in H2. apply elem_of_app in H2 as [H2|H2].
    - destruct a1 as [|x a1]; [inversion H2|].
      destruct (N.eqb_spec x 115) as [->|]; [|inversion H2].
      apply list_elem_of_singleton in H2. right. congruence.
    - apply list_elem_of_singleton in H2. left. congruence. }
  split.
  { rewrite u_http_scheme, u_https_scheme, <- !app_assoc, Ha1.
    destruct Ha1' as [->| ->]; [left|right]; rewrite Ha3, Hrest; reflexivity. }
  split; [intros ->; cbn in Hlen; lia|].
  split.
  - eapply Forall_impl; [exact Hall|]. intros c Hc. unfold not_space in Hc.
    apply negb_true_iff in Hc. exact Hc.
  - destruct Hend as [?|(c & ? & Hc)]; [auto|]. right. exists c. split; [assumption|].
    unfold not_space in Hc. apply negb_false_iff in Hc. exact Hc.
Qed.

End RegexSpans.

(** *** Education and projects, line by line *)

Lemma trimmed_nonblank_elem (parts : list str) (x : str) :
  x ∈ trimmed_nonblank parts -> x <> [] /\ strip x = x.
Proof.
  unfold trimmed_nonblank. intros H. apply list_elem_of_omap in H as (p & _ & Hp).
  destruct (strip p) as [|c t] eqn:E; [discriminate|]. injection Hp as <-.
  split; [discriminate|]. rewrite <- E. apply strip_idem.
Qed.

Lemma rx_repeat_intro (p : N -> bool) (lo : nat) (b m a' : str) :
  Forall (fun c => p c = true) m -> (lo <= length m)%nat ->
  (reverse m ++ b, a') ∈ rx_repeat p lo None b (m ++ a').
Proof.
  revert lo b. induction m as [|c m IH]; intros lo b Hall Hlo.
  - cbn [length] in Hlo. assert (lo = O) as -> by lia. cbn [app reverse rev_append].
    destruct a' as [|x a']; cbn [rx_repeat]; [left|].
    destruct (p x && _); [apply elem_of_app; right; left|left].
  - apply Forall_cons in Hall as [Hc Hall]. cbn [app rx_repeat]. rewrite Hc. cbn [andb fmap option_fmap option_map].
    apply elem_of_app. left. rewrite reverse_cons, <- app_assoc. apply IH; [exact Hall|].
    cbn [length] in Hlo. lia.
Qed.

Section Lines.
Context `{U : Unicode}.

Lemma search_from_none (r : regex) (b a : str) :
  search_from r b a = None ->
  forall x y, a = x ++ y -> rx_match r (reverse x ++ b) y = [].
Proof.
  intros H x y Hxy.
  destruct (rx_match r (reverse x ++ b) y) as [|p l] eqn:E; [reflexivity|].
  assert (Hf : found (search_from r b a) = true).
  { apply search_from_found. exists x, y, p. split; [exact Hxy|]. rewrite E. left. }
  rewrite H in Hf. discriminate.
Qed.

Lemma url_match_intro (b tail a' : str) (secure : bool) :
  tail <> [] -> Forall (fun c => isspace c = false) tail ->
  rx_match url_pattern b
    (u "http" ++ (if secure then [0x73] else []) ++ u "://" ++ tail ++ a') <> [].
Proof.
  intros Hne Hall Hnil.
  assert (Hin : (reverse tail ++ reverse (u "://")
                   ++ (if secure then [0x73] else []) ++ reverse (u "http") ++ b, a')
                ∈ rx_match url_pattern b
                    (u "http" ++ (if secure then [0x73] else []) ++ u "://" ++ tail ++ a')).
  { unfold url_pattern. cbn [rx_match]. apply list_elem_of_bind.
    exists (reverse (u "http") ++ b, (if secure then [0x73] else []) ++ u "://" ++ tail ++ a').
    split; [|apply rx_match_lit; auto].
    apply list_elem_of_bind.
    exists ((if secure then [0x73] else []) ++ reverse (u "http") ++ b, u "://" ++ tail ++ a').
    split.
    - apply list_elem_of_bind.
      exists (reverse (u "://") ++ (if secure then [0x73] else []) ++ reverse (u "http") ++ b,
              tail ++ a').
      split; [|apply rx_match_lit; auto].
      apply rx_repeat_intro.
      + eapply Forall_impl; [exact Hall|]. intros c Hc. unfold not_space. rewrite Hc. reflexivity.
      + destruct tail; [contradiction|cbn [length]; lia].
    - destruct secure; cbn [app].
      + apply elem_of_app. left. rewrite N.eqb_refl. left.
      + apply elem_of_app. right. left. }
  rewrite Hnil in Hin. inversion Hin.
Qed.

(** The search for a web address finds one exactly in the lines that hold
    the start of one, and what it returns is the first address of the line,
    as described by [url_in]. *)
Lemma url_search (line : str) :
  match re_search url_pattern line with
  | Some m => url_in line m
  | None => ~ has_url line
  end.
Proof.
  destruct (re_search url_pattern line) as [m|] eqn:E.
  - unfold re_search in E.
    apply search_from_leftmost in E as (pre & post & Hline & Hh & Hleft).
    apply url_match_shape in Hh as (tail & Hm & Hne & Hall & Hend).
    exists pre, tail, post. split; [exact Hline|].
    split.
    { destruct Hm as [Hm|Hm]; [left|right]; rewrite app_assoc in Hm;
        apply app_inv_tail in Hm; exact Hm. }
    split; [exact Hne|]. split; [exact Hall|]. split; [exact Hend|].
    intros before c after Hc Hl.
    destruct (Nat.le_gt_cases (length pre) (length before)) as [Hle|Hlt]; [exact Hle|].
    exfalso.
    assert (Hnil : forall secure : bool,
      line = before ++ u "http" ++ (if secure then [0x73] else []) ++ u "://" ++ [c] ++ after ->
      False).
    { intros secure Hl'. pose proof (Hleft before _ Hl' Hlt) as Hn.
      revert Hn. apply url_match_intro; [discriminate|]. constructor; [exact Hc|constructor]. }
    destruct Hl as [Hl|Hl].
    + apply (Hnil false). rewrite Hl, u_http_scheme, <- !app_assoc. reflexivity.
    + apply (Hnil true). rewrite Hl, u_https_scheme, <- !app_assoc. reflexivity.
  - intros (pre & c & post & Hc & Hline). unfold re_search in E.
    assert (Hnil : forall secure : bool,
      line = pre ++ u "http" ++ (if secure then [0x73] else []) ++ u "://" ++ [c] ++ post ->
      False).
    { intros secure Hl. pose proof (search_from_none _ _ _ E pre _ Hl) as Hn.
      revert Hn. apply url_match_intro; [discriminate|]. constructor; [exact Hc|constructor]. }
    destruct Hline as [Hl|Hl].
    + apply (Hnil false). rewrite Hl, u_http_scheme, <- !app_assoc. reflexivity.
    + apply (Hnil true). rewrite Hl, u_https_scheme, <- !app_assoc. reflexivity.
Qed.

Lemma education_loop_lines (lines : list str) (educations : list EducationItem.t) :
  (Forall (fun line => line = [] \/ fragments education_separator line <> []) lines
   /\ exists items, education_loop lines educations = Ok (educations ++ items)
        /\ Forall2 education_of_line (List.filter nonempty lines) items)
  \/ (Exists (fun line => line <> [] /\ fragments education_separator line = []) lines
      /\ education_loop lines educations = Raise IndexError).
Proof.
  revert educations. induction lines as [|line lines IH]; intros educations.
  - left. split; [constructor|]. exists []. rewrite app_nil_r. split; [reflexivity|constructor].
  - cbn [education_loop List.filter]. destruct line as [|c line]; cbn [nonempty negb].
    + destruct (IH educations) as [(Hall & items & Hi & Hrel)|(Hex & Hr)].
      * left. split; [constructor; auto|]. eauto.
      * right. split; [right; exact Hex|exact Hr].
    + rewrite strip_filter_trimmed. fold (fragments education_separator (c :: line)).
      destruct (fragments education_separator (c :: line)) as [|degree others] eqn:E.
      * right. split; [|reflexivity]. left. split; [discriminate|exact E].
      * cbn [getitem lookup list_lookup mbind result_bind].
        assert (Hfrag : Forall (fun f => f <> [] /\ strip f = f) (degree :: others)).
        { apply Forall_forall. intros f Hf. unfold fragments in E. rewrite <- E in Hf.
          exact (trimmed_nonblank_elem _ _ Hf). }
        match goal with
        | |- context [education_loop lines (educations ++ [?it])] => set (item := it)
        end.
        destruct (IH (educations ++ [item])) as [(Hall & items & Hi & Hrel)|(Hex & Hr)].
        -- left. split.
           { constructor; [right; rewrite E; discriminate|exact Hall]. }
           exists (item :: items). rewrite Hi, <- app_assoc. split; [reflexivity|].
           constructor; [|exact Hrel].
           exists degree, others.
           split; [exact E|]. split; [exact Hfrag|].
           split; [reflexivity|]. split; [destruct others; reflexivity|].
           split; [|split; reflexivity].
           destruct others as [|o1 [|o2 others]]; reflexivity.
        -- right. split; [right; exact Hex|exact Hr].
Qed.

Lemma projects_loop_lines (lines : list str) (projects : list ProjectItem.t) :
  (Forall (fun line => line = [] \/ fragments project_separator line <> []) lines
   /\ exists items, projects_loop lines projects = Ok (projects ++ items)
        /\ Forall2 project_of_line (List.filter nonempty lines) items)
  \/ (Exists (fun line => line <> [] /\ fragments project_separator line = []) lines
      /\ projects_loop lines projects = Raise IndexError).
Proof.
  revert projects. induction lines as [|line lines IH]; intros projects.
  - left. split; [constructor|]. exists []. rewrite app_nil_r. split; [reflexivity|constructor].
  - cbn [projects_loop List.filter]. destruct line as [|c line]; cbn [nonempty negb].
    + destruct (IH projects) as [(Hall & items & Hi & Hrel)|(Hex & Hr)].
      * left. split; [constructor; auto|]. eauto.
      * right. split; [right; exact Hex|exact Hr].
    + rewrite strip_filter_trimmed. fold (fragments project_separator (c :: line)).
      destruct (fragments project_separator (c :: line)) as [|name others] eqn:E.
      * right. split; [|reflexivity]. left. split; [discriminate|exact E].
      * cbn [getitem lookup list_lookup mbind result_bind].
        assert (Hfrag : Forall (fun f => f <> [] /\ strip f = f) (name :: others)).
        { apply Forall_forall. intros f Hf. unfold fragments in E. rewrite <- E in Hf.
          exact (trimmed_nonblank_elem _ _ Hf). }
        match goal with
        | |- context [projects_loop lines (projects ++ [?it])] => set (item := it)
        end.
        destruct (IH (projects ++ [item])) as [(Hall & items & Hi & Hrel)|(Hex & Hr)].
        -- left. split.
           { constructor; [right; rewrite E; discriminate|exact Hall]. }
           exists (item :: items). rewrite Hi, <- app_assoc. split; [reflexivity|].
           constructor; [|exact Hrel].
           exists name, others.
           split; [exact E|]. split; [exact Hfrag|].
           split; [reflexivity|]. split; [destruct others; reflexivity|].
           apply url_search.
        -- right. split; [right; exact Hex|exact Hr].
Qed.

End Lines.

(** On a line with two addresses only the first one stands as [url_in]
    demands. *)
Example url_in_first_only :
  url_in (u "x http://a http://b") (u "http://a")
  /\ ~ url_in (u "x http://a http://b") (u "http://b").
Proof.
  split.
  - pose proof (@url_search Latin1 (u "x http://a http://b")) as H.
    assert (E : @re_search Latin1 url_pattern (u "x http://a http://b") = Some (u "http://a"))
      by by_computation.
    rewrite E in H. exact H.
  - intros (pre & tail & post & Hline & _ & _ & _ & _ & Hfirst).
    assert (Hlen : (length pre <= 2)%nat).
    { apply (Hfirst (u "x ") 0x61 (u " http://b")); [reflexivity|left; by_computation]. }
    assert (Hline' : u "x http://a http://b" = pre ++ u "http://b" ++ post) by exact Hline.
    clear Hline Hfirst.
    assert (Ex : u "x http://a http://b" = [120; 32; 104; 116; 116; 112; 58; 47; 47; 97]
                   ++ u " http://b") by by_computation.
    assert (Eb : u "http://b" = [104; 116; 116; 112; 58; 47; 47; 98]) by by_computation.
    rewrite Ex, Eb in Hline'. clear Ex Eb.
    destruct pre as [|p0 [|p1 [|p2 pre]]]; cbn [length] in Hlen; [| | |lia];
      cbn [app] in Hline'; congruence.
Qed.

(** *** Lines without a fragment *)

Section StrippingAway.
Variable p : N -> bool.

Lemma lstrip_by_nil (s : str) : lstrip_by p s = [] -> Forall (fun c => p c = true) s.
Proof.
  induction s as [|c s IH]; [constructor|]. cbn [lstrip_by].
  destruct (p c) eqn:E; [|discriminate]. intros H. constructor; auto.
Qed.

Lemma lstrip_by_split (s : str) :
  exists pre, s = pre ++ lstrip_by p s /\ Forall (fun c => p c = true) pre.
Proof.
  induction s as [|c s IH]; [exists []; auto|]. cbn [lstrip_by].
  destruct (p c) eqn:E.
  - destruct IH as (pre & Hs & Hpre). exists (c :: pre). split.
    + cbn. rewrite <- Hs. reflexivity.
    + constructor; assumption.
  - exists []. auto.
Qed.

Lemma rstrip_by_split (s : str) :
  exists post, s = rstrip_by p s ++ post /\ Forall (fun c => p c = true) post.
Proof.
  unfold rstrip_by. destruct (lstrip_by_split (reverse s)) as (pre & Hs & Hpre).
  exists (reverse pre). split.
  - rewrite <- reverse_app, <- Hs, reverse_involutive. reflexivity.
  - apply Forall_reverse. exact Hpre.
Qed.

(** What [strip] returns stands in the text between stripped characters. *)
Lemma strip_by_split (s : str) :
  exists pre post, s = pre ++ strip_by p s ++ post
    /\ Forall (fun c => p c = true) pre /\ Forall (fun c => p c = true) post.
Proof.
  unfold strip_by. destruct (lstrip_by_split s) as (pre & Hs & Hpre).
  destruct (rstrip_by_split (lstrip_by p s)) as (post & Ht & Hpost).
  exists pre, post. rewrite <- Ht. auto.
Qed.

Lemma strip_by_nil (s : str) : strip_by p s = [] -> Forall (fun c => p c = true) s.
Proof.
  intros H. destruct (strip_by_split s) as (pre & post & Hs & Hpre & Hpost).
  rewrite H in Hs. rewrite Hs. apply Forall_app. auto.
Qed.

Lemma strip_by_elem (s : str) (c : N) : c ∈ strip_by p s -> c ∈ s.
Proof.
  intros H. destruct (strip_by_split s) as (pre & post & Hs & _). rewrite Hs.
  apply elem_of_app. right. apply elem_of_app. left. exact H.
Qed.

End StrippingAway.

Lemma trimmed_nonblank_nil (parts : list str) :
  trimmed_nonblank parts = [] -> Forall (fun part => Forall (fun c => isspace c = true) part) parts.
Proof.
  unfold trimmed_nonblank. induction parts as [|part parts IH]; [constructor|].
  cbn [omap list_omap]. destruct (strip part) as [|c t] eqn:E; [|discriminate].
  intros H. constructor; [apply strip_by_nil; exact E|exact (IH H)].
Qed.

Section SplitChars.
Context `{U : Unicode}.
Variable r : regex.
Variable Q : N -> Prop.
Hypothesis separators : forall b a m, match_here r b a = Some m -> Forall Q m.

(** Every character of a text that is split belongs to a separator or to one
    of the pieces. *)
Lemma split_from_chars (a : str) (skip : nat) (cur b : str) (c : N) :
  Forall Q (take skip a) -> c ∈ cur \/ c ∈ a ->
  Q c \/ exists piece, piece ∈ split_from r skip cur b a /\ c ∈ piece.
Proof.
  revert skip cur b. induction a as [|x a IH]; intros skip cur b Hskip Hc.
  - right. exists (reverse cur). split; [cbn; destruct skip; left|].
    destruct Hc as [Hc|Hc]; [|inversion Hc]. apply elem_of_reverse. exact Hc.
  - cbn [split_from]. destruct skip as [|k].
    + destruct (match_here r b (x :: a)) as [[|y m]|] eqn:E.
      * apply IH; [constructor|]. rewrite elem_of_cons.
        destruct Hc as [Hc|Hc]; [auto|]. apply elem_of_cons in Hc as [->|Hc]; auto.
      * pose proof (separators _ _ _ E) as HQ.
        apply match_here_span in E as (a'' & Ha & _). injection Ha as <- ->.
        apply Forall_cons in HQ as [Hy Hm].
        destruct Hc as [Hc|Hc].
        { right. exists (reverse cur). split; [left|]. apply elem_of_reverse. exact Hc. }
        apply elem_of_cons in Hc as [->|Hc]; [left; exact Hy|].
        destruct (IH (length m) [] (x :: b)) as [HQc|(piece & Hin & Hcp)].
        -- rewrite take_app_length. exact Hm.
        -- right. exact Hc.
        -- left. exact HQc.
        -- right. exists piece. split; [right; exact Hin|exact Hcp].
      * apply IH; [constructor|]. rewrite elem_of_cons.
        destruct Hc as [Hc|Hc]; [auto|]. apply elem_of_cons in Hc as [->|Hc]; auto.
    + cbn [take] in Hskip. apply Forall_cons in Hskip as [Hx Hskip].
      destruct Hc as [Hc|Hc]; [apply IH; auto|].
      apply elem_of_cons in Hc as [->|Hc]; [left; exact Hx|]. apply IH; auto.
Qed.

Lemma re_split_chars (s : str) (c : N) :
  c ∈ s -> Q c \/ exists piece, piece ∈ re_split r s /\ c ∈ piece.
Proof. intros H. apply split_from_chars; [constructor|right; exact H]. Qed.

End SplitChars.

Section SeparatorLines.
Context `{U : Unicode}.

Lemma match_here_alt_lit (r : regex) (kws : list str) (b a m : str) :
  (forall b' a', (b', a') ∈ rx_match r b a ->
     exists kw, kw ∈ kws /\ a = kw ++ a') ->
  match_here r b a = Some m -> m ∈ kws.
Proof.
  intros Hr H. apply match_here_span in H as (a' & Ha & Hh).
  assert (Hin : (reverse m ++ b, a') ∈ rx_match r b a).
  { destruct (rx_match r b a) as [|y l]; [discriminate|]. injection Hh as ->. left. }
  apply Hr in Hin as (kw & Hkw & Ha'). rewrite Ha in Ha'.
  apply app_inv_tail in Ha'. subst kw. exact Hkw.
Qed.

Lemma rx_match_lit_char (c : N) (b a b' a' : str) :
  (b', a') ∈ rx_match (Lit c) b a -> a = [c] ++ a'.
Proof.
  cbn [rx_match]. destruct a as [|x a]; [intros H; inversion H|].
  destruct (N.eqb_spec x c) as [->|]; [|intros H; inversion H].
  intros H. apply list_elem_of_singleton in H. injection H as _ ->. reflexivity.
Qed.

Lemma education_separator_match (b a m : str) :
  match_here education_separator b a = Some m -> m ∈ [u " - "; u " – "; [0x2C]].
Proof.
  apply match_here_alt_lit. intros b' a'. unfold education_separator. cbn [rx_match].
  rewrite !elem_of_app. intros [H|[H|H]].
  - apply rx_match_lit in H as [-> _]. eexists. split; [|reflexivity]. left.
  - apply rx_match_lit in H as [-> _]. eexists. split; [|reflexivity]. right. left.
  - apply rx_match_lit_char in H. eexists. split; [|exact H]. right. right. left.
Qed.

Lemma project_separator_match (b a m : str) :
  match_here project_separator b a = Some m -> m ∈ [u " - "; u " – "; [0x3A]; [0x2C]].
Proof.
  apply match_here_alt_lit. intros b' a'. unfold project_separator. cbn [rx_match].
  rewrite !elem_of_app. intros [H|[H|[H|H]]].
  - apply rx_match_lit in H as [-> _]. eexists. split; [|reflexivity]. left.
  - apply rx_match_lit in H as [-> _]. eexists. split; [|reflexivity]. right. left.
  - apply rx_match_lit_char in H. eexists. split; [|exact H]. right. right. left.
  - apply rx_match_lit_char in H. eexists. split; [|exact H]. right. right. right. left.
Qed.

(** A line of the education bucket without fragment is made of white space,
    commas, hyphens and en dashes. *)
Lemma education_no_fragment (line : str) :
  fragments education_separator line = [] ->
  Forall (fun c => isspace c = true \/ c ∈ [0x2C; 0x2D; 0x2013]) line.
Proof.
  intros H. apply trimmed_nonblank_nil in H. apply Forall_forall. intros c Hc.
  assert (Hsep : forall b a m, match_here education_separator b a = Some m ->
            Forall (fun c => c ∈ [0x20; 0x2C; 0x2D; 0x2013]) m).
  { intros b a m Hm. apply education_separator_match in Hm.
    apply (bool_decide_unpack _). rewrite !elem_of_cons in Hm.
    destruct Hm as [->|[->|[->|Hm]]]; [by_computation..|inversion Hm]. }
  destruct (re_split_chars education_separator _ Hsep line c Hc) as [HQ|(piece & Hin & Hcp)].
  - rewrite !elem_of_cons in HQ. destruct HQ as [->|HQ]; [left; reflexivity|].
    right. rewrite !elem_of_cons. exact HQ.
  - left. rewrite Forall_forall in H. specialize (H piece Hin).
    rewrite Forall_forall in H. exact (H c Hcp).
Qed.

Lemma projects_no_fragment (line : str) :
  fragments project_separator line = [] ->
  Forall (fun c => isspace c = true \/ c ∈ [0x2C; 0x2D; 0x3A; 0x2013]) line.
Proof.
  intros H. apply trimmed_nonblank_nil in H. apply Forall_forall. intros c Hc.
  assert (Hsep : forall b a m, match_here project_separator b a = Some m ->
            Forall (fun c => c ∈ [0x20; 0x2C; 0x2D; 0x3A; 0x2013]) m).
  { intros b a m Hm. apply project_separator_match in Hm.
    apply (bool_decide_unpack _). rewrite !elem_of_cons in Hm.
    destruct Hm as [->|[->|[->|[->|Hm]]]]; [by_computation..|inversion Hm]. }
  destruct (re_split_chars project_separator _ Hsep line c Hc) as [HQ|(piece & Hin & Hcp)].
  - rewrite !elem_of_cons in HQ. destruct HQ as [->|HQ]; [left; reflexivity|].
    right. rewrite !elem_of_cons. exact HQ.
  - left. rewrite Forall_forall in H. specialize (H piece Hin).
    rewrite Forall_forall in H. exact (H c Hcp).
Qed.

End SeparatorLines.

(** *** Outcome of the education and projects extractors *)

(** The two outcomes of [_parse_education]. *)
Lemma parse_education_cases `{U : Unicode} (lines : list str) :
  (exists items, _parse_education lines = Ok items
     /\ Forall2 education_of_line (List.filter nonempty lines) items)
  \/ (_parse_education lines = Raise IndexError
      /\ Exists (fun line =>
                   line <> [] /\ fragments education_separator line = []
                   /\ Forall (fun c => isspace c = true \/ c ∈ [0x2C; 0x2D; 0x2013]) line)
                lines).
Proof.
  unfold _parse_education.
  destruct (education_loop_lines lines []) as [(_ & items & Hi & Hrel)|(Hex & Hr)].
  - left. exists items. auto.
  - right. split; [exact Hr|]. eapply Exists_impl; [exact Hex|].
    intros line [Hne Hf]. split; [exact Hne|]. split; [exact Hf|].
    apply education_no_fragment. exact Hf.
Qed.

(** The two outcomes of [_parse_projects]. *)
Lemma parse_projects_cases `{U : Unicode} (lines : list str) :
  (exists items, _parse_projects lines = Ok items
     /\ Forall2 project_of_line (List.filter nonempty lines) items)
  \/ (_parse_projects lines = Raise IndexError
      /\ Exists (fun line =>
                   line <> [] /\ fragments project_separator line = []
                   /\ Forall (fun c => isspace c = true \/ c ∈ [0x2C; 0x2D; 0x3A; 0x2013])
                        line)
                lines).
Proof.
  unfold _parse_projects.
  destruct (projects_loop_lines lines []) as [(_ & items & Hi & Hrel)|(Hex & Hr)].
  - left. exists items. auto.
  - right. split; [exact Hr|]. eapply Exists_impl; [exact Hex|].
    intros line [Hne Hf]. split; [exact Hne|]. split; [exact Hf|].
    apply projects_no_fragment. exact Hf.
Qed.

(** *** Outcome of the pipeline *)

Lemma filter_nonempty_id (lines : list str) :
  Forall (fun line => line <> []) lines -> List.filter nonempty lines = lines.
Proof.
  induction lines as [|line lines IH]; [reflexivity|].
  intros H. apply Forall_cons in H as [Hl H]. cbn [List.filter].
  apply nonempty_true in Hl. rewrite Hl, (IH H). reflexivity.
Qed.

(** The lines of every bucket of the pipeline are trimmed and not empty. *)
Lemma bucket_trimmed `{U : Unicode} (text k : str) :
  Forall (fun line => line <> [] /\ strip line = line)
         (get (_split_sections (_normalize_lines text)) k).
Proof.
  rewrite split_sections_get. apply Forall_forall. intros line Hin.
  apply bucket_after_elem in Hin as [Hin _]. exact (normalize_lines_elem _ _ Hin).
Qed.

Lemma bucket_filter_nonempty `{U : Unicode} (text k : str) :
  List.filter nonempty (get (_split_sections (_normalize_lines text)) k)
  = get (_split_sections (_normalize_lines text)) k.
Proof.
  apply filter_nonempty_id. eapply Forall_impl; [apply bucket_trimmed|].
  intros line [H _]. exact H.
Qed.

(** The two outcomes of the pipeline. *)
Lemma parse_text_cases `{U : Unicode} (text : str) :
  let sections := _split_sections (_normalize_lines text) in
  (exists data, parse_text text = Ok data
     /\ ResumeData.contact data = _extract_contact (get sections (u "header"))
     /\ _parse_experience (get sections (u "experience")) = Ok (ResumeData.experiences data)
     /\ Forall2 education_of_line (get sections (u "education")) (ResumeData.educations data)
     /\ ResumeData.skills data = _parse_skills (get sections (u "skills"))
     /\ Forall2 project_of_line (get sections (u "projects")) (ResumeData.projects data)
     /\ ResumeData.professional_summary data
        = match get sections (u "summary") with
          | [] => None
          | summary_lines => Some (join (u " ") summary_lines)
          end)
  \/ (parse_text text = Raise IndexError
      /\ (Exists (fun line => fragments education_separator line = [])
                 (get sections (u "education"))
          \/ Exists (fun line => fragments project_separator line = [])
                    (get sections (u "projects")))).
Proof.
  intros sections. unfold parse_text. cbv zeta. fold sections.
  destruct (experience_loop_ok (get sections (u "experience") ++ [[]]) [] [])
    as [experiences Hexp].
  unfold _parse_experience. rewrite Hexp. cbn [mbind result_bind].
  pose proof (bucket_filter_nonempty text (u "education")) as Hfe.
  pose proof (bucket_filter_nonempty text (u "projects")) as Hfp.
  fold sections in Hfe, Hfp.
  destruct (parse_education_cases (get sections (u "education")))
    as [(educations & -> & Hedu)|(-> & Hedu)].
  - cbn [mbind result_bind]. rewrite Hfe in Hedu.
    destruct (parse_projects_cases (get sections (u "projects")))
      as [(projects & -> & Hproj)|(-> & Hproj)].
    + cbn [mbind result_bind mret result_ret]. rewrite Hfp in Hproj.
      left. eexists. split; [reflexivity|].
      cbn [ResumeData.contact ResumeData.experiences ResumeData.educations
           ResumeData.skills ResumeData.projects ResumeData.professional_summary].
      repeat (split; [first [reflexivity|assumption]|]).
      destruct (get sections (u "summary")); reflexivity.
    + right. split; [reflexivity|]. right. eapply Exists_impl; [exact Hproj|].
      intros line (_ & H & _). exact H.
  - right. split; [reflexivity|]. left. eapply Exists_impl; [exact Hedu|].
    intros line (_ & H & _). exact H.
Qed.

(** X1: [_parse_education] either returns one entry for every line that is
    not empty, in the order of the lines, read from the fragments of the line
    (first fragment the degree, which is trimmed and not empty, second the
    institution, the others joined by ", " the summary), or raises
    [IndexError], and then some line that is not empty has no fragment; such
    a line is made of white space, commas, hyphens and en dashes. *)
Theorem parse_education_lines `{U : Unicode} (lines : list str) :
  (exists items, _parse_education lines = Ok items
     /\ Forall2 education_of_line (List.filter nonempty lines) items)
  \/ (_parse_education lines = Raise IndexError
      /\ Exists (fun line =>
                   line <> [] /\ fragments education_separator line = []
                   /\ Forall (fun c => isspace c = true \/ c ∈ [0x2C; 0x2D; 0x2013]) line)
                lines).
Proof. apply parse_education_cases. Qed.

(** X2: [_parse_projects] either returns one entry for every line that is
    not empty, in the order of the lines (first fragment the name, trimmed
    and not empty, the other fragments joined by ", " the description, the
    link the first web address of the line, present exactly when the line
    holds one), or raises [IndexError], and then some line that is not empty
    has no fragment; such a line is made of white space, commas, colons,
    hyphens and en dashes. *)
Theorem parse_projects_lines `{U : Unicode} (lines : list str) :
  (exists items, _parse_projects lines = Ok items
     /\ Forall2 project_of_line (List.filter nonempty lines) items)
  \/ (_parse_projects lines = Raise IndexError
      /\ Exists (fun line =>
                   line <> [] /\ fragments project_separator line = []
                   /\ Forall (fun c => isspace c = true \/ c ∈ [0x2C; 0x2D; 0x3A; 0x2013])
                        line)
                lines).
Proof. apply parse_projects_cases. Qed.

(** X3: the pipeline raises nothing but [IndexError], and raises it exactly
    when a line of the education bucket or of the projects bucket has no
    fragment.  Otherwise it returns the contact of the header bucket, the
    skills of the skills bucket, the lines of the summary bucket joined by
    spaces (absent when there is none), the experiences of the experience
    bucket, and one education entry and one project entry for every line of
    their buckets, in the order of the document. *)
Theorem parse_text_outcome `{U : Unicode} (text : str) :
  let sections := _split_sections (_normalize_lines text) in
  (exists data, parse_text text = Ok data
     /\ ResumeData.contact data = _extract_contact (get sections (u "header"))
     /\ _parse_experience (get sections (u "experience")) = Ok (ResumeData.experiences data)
     /\ Forall2 education_of_line (get sections (u "education")) (ResumeData.educations data)
     /\ ResumeData.skills data = _parse_skills (get sections (u "skills"))
     /\ Forall2 project_of_line (get sections (u "projects")) (ResumeData.projects data)
     /\ ResumeData.professional_summary data
        = match get sections (u "summary") with
          | [] => None
          | summary_lines => Some (join (u " ") summary_lines)
          end)
  \/ (parse_text text = Raise IndexError
      /\ (Exists (fun line => fragments education_separator line = [])
                 (get sections (u "education"))
          \/ Exists (fun line => fragments project_separator line = [])
                    (get sections (u "projects")))).
Proof. apply parse_text_cases. Qed.

(** *** The experience extractor on any lines *)

Section ExperienceBlocks.
Context `{U : Unicode}.

Lemma experience_loop_count (lines : list str) (experiences : list ExperienceItem.t)
    (buffer : list str) :
  exists items, experience_loop lines experiences buffer = Ok items
    /\ (length experiences <= length items)%nat
    /\ (length items <= length experiences + length (List.filter blank lines))%nat.
Proof.
  revert experiences buffer. induction lines as [|line lines IH]; intros experiences buffer.
  - exists experiences. cbn. split; [reflexivity|lia].
  - cbn [experience_loop List.filter]. fold (blank line).
    destruct (blank line) eqn:Eb; cbn [andb].
    + destruct buffer as [|header rest].
      * cbn [bool_decide decide_rel negb]. rewrite bool_decide_eq_true_2 by reflexivity.
        cbn [negb]. destruct (IH experiences ([] ++ [line])) as (items & -> & H1 & H2).
        exists items. split; [reflexivity|]. cbn [length]. lia.
      * rewrite bool_decide_eq_false_2 by discriminate. cbn [negb].
        destruct (experience_from_block_ok header rest) as [item ->].
        cbn [mbind result_bind].
        destruct (IH (experiences ++ [item]) []) as (items & -> & H1 & H2).
        exists items. split; [reflexivity|]. rewrite length_app in H1, H2.
        cbn [length] in *. lia.
    + destruct (IH experiences (buffer ++ [line])) as (items & -> & H1 & H2).
      exists items. split; [reflexivity|]. lia.
Qed.

Lemma experience_loop_sentinel (lines : list str) (experiences : list ExperienceItem.t)
    (buffer : list str) :
  buffer <> [] \/ lines <> [] ->
  exists items, experience_loop (lines ++ [[]]) experiences buffer = Ok items /\ items <> [].
Proof.
  revert experiences buffer. induction lines as [|line lines IH]; intros experiences buffer H.
  - destruct H as [H|H]; [|contradiction]. destruct buffer as [|header rest]; [contradiction|].
    cbn [app experience_loop]. change (strip []) with (@nil N).
    rewrite bool_decide_eq_false_2 by discriminate. cbn [nonempty negb andb].
    destruct (experience_from_block_ok header rest) as [item ->].
    cbn [mbind result_bind experience_loop mret result_ret].
    eexists. split; [reflexivity|]. intros E. apply app_eq_nil in E as [_ E]. discriminate.
  - cbn [app experience_loop]. destruct (negb (nonempty (strip line)) && _) eqn:E.
    + apply andb_true_iff in E as [_ Hb]. apply negb_true_iff, bool_decide_eq_false in Hb.
      destruct buffer as [|header rest]; [contradiction|].
      destruct (experience_from_block_ok header rest) as [item ->]. cbn [mbind result_bind].
      destruct (experience_loop_count (lines ++ [[]]) (experiences ++ [item]) [])
        as (items & -> & H1 & _).
      exists items. split; [reflexivity|]. intros ->. rewrite length_app in H1.
      cbn [length] in H1. lia.
    + apply IH. left. intros E'. apply app_eq_nil in E' as [_ E']. discriminate.
Qed.

End ExperienceBlocks.

(** X4: [_parse_experience] never raises, whatever the lines: the buffer it
    flushes has a first line.  It returns no entry exactly on the empty list
    of lines, and at most one entry more than there are blank lines. *)
Theorem parse_experience_total `{U : Unicode} (lines : list str) :
  exists items, _parse_experience lines = Ok items
    /\ (items = [] <-> lines = [])
    /\ (length items <= S (length (List.filter blank lines)))%nat.
Proof.
  unfold _parse_experience.
  destruct (experience_loop_count (lines ++ [[]]) [] []) as (items & Hi & _ & Hlen).
  exists items. split; [exact Hi|]. split.
  - split.
    + intros ->. destruct lines as [|line lines]; [reflexivity|]. exfalso.
      destruct (experience_loop_sentinel (line :: lines) [] []) as (items & Hi' & Hne);
        [right; discriminate|]. rewrite Hi in Hi'. injection Hi' as <-. contradiction.
    + intros ->. cbn in Hi. injection Hi as <-. reflexivity.
  - rewrite List.filter_app, length_app in Hlen. cbn in Hlen. lia.
Qed.

(** *** Normalized lines *)

Lemma splitlines_from_no_break (cur : str) (after_cr : bool) (s : str) :
  Forall (fun c => is_linebreak c = false) cur ->
  Forall (fun line => Forall (fun c => is_linebreak c = false) line)
         (splitlines_from cur after_cr s).
Proof.
  revert cur after_cr. induction s as [|c s IH]; intros cur after_cr Hcur.
  - cbn. destruct cur; [constructor|]. constructor; [|constructor].
    apply Forall_reverse. exact Hcur.
  - cbn [splitlines_from]. destruct (after_cr && (c =? 10)); [apply IH; exact Hcur|].
    destruct (is_linebreak c) eqn:E.
    + constructor; [apply Forall_reverse; exact Hcur|]. apply IH. constructor.
    + apply IH. constructor; assumption.
Qed.

Lemma splitlines_from_line (line cur s : str) :
  Forall (fun c => is_linebreak c = false) line ->
  splitlines_from cur false (line ++ s) = splitlines_from (reverse line ++ cur) false s.
Proof.
  revert cur. induction line as [|c line IH]; intros cur Hl; [reflexivity|].
  apply Forall_cons in Hl as [Hc Hl]. cbn [app splitlines_from andb]. rewrite Hc.
  rewrite (IH _ Hl), reverse_cons, <- app_assoc. reflexivity.
Qed.

(** Lines without line break, none of them empty, are the lines of their
    text. *)
Lemma splitlines_join (lines : list str) :
  Forall (fun line => line <> [] /\ Forall (fun c => is_linebreak c = false) line) lines ->
  splitlines (join [0x0A] lines) = lines.
Proof.
  unfold splitlines. induction lines as [|line lines IH]; [reflexivity|].
  intros H. apply Forall_cons in H as [[Hne Hl] H]. specialize (IH H).
  destruct lines as [|line' lines].
  - cbn [join]. rewrite <- (app_nil_r line) at 1. rewrite (splitlines_from_line _ _ _ Hl).
    rewrite app_nil_r. cbn [splitlines_from].
    destruct (reverse line) eqn:E.
    + exfalso. apply Hne. rewrite <- (reverse_involutive line), E. reflexivity.
    + rewrite <- E, reverse_involutive. reflexivity.
  - change (join [10] (line :: line' :: lines))
      with (line ++ [10] ++ join [10] (line' :: lines)).
    rewrite (splitlines_from_line _ _ _ Hl), app_nil_r. cbn [app splitlines_from andb].
    change (is_linebreak 10) with true. change (10 =? 13) with false. cbv iota.
    rewrite reverse_involutive, IH. reflexivity.
Qed.

(** The normalizer keeps lines that are already normal. *)
Lemma normalize_lines_join (lines : list str) :
  Forall (fun line => line <> [] /\ strip line = line
                      /\ Forall (fun c => is_linebreak c = false) line) lines ->
  _normalize_lines (join [0x0A] lines) = lines.
Proof.
  intros H. unfold _normalize_lines. rewrite splitlines_join.
  - induction H as [|line lines (Hne & Hs & _) _ IH]; [reflexivity|].
    rewrite fmap_cons, Hs. cbn [List.filter]. apply nonempty_true in Hne. rewrite Hne, IH.
    reflexivity.
  - eapply Forall_impl; [exact H|]. intros line (? & _ & ?). auto.
Qed.

Lemma strip_no_break (line : str) :
  Forall (fun c => is_linebreak c = false) line ->
  Forall (fun c => is_linebreak c = false) (strip line).
Proof.
  intros H. apply Forall_forall. intros c Hc. apply strip_by_elem in Hc.
  rewrite Forall_forall in H. exact (H c Hc).
Qed.

Lemma normalize_lines_normal (text : str) :
  Forall (fun line => line <> [] /\ strip line = line
                      /\ Forall (fun c => is_linebreak c = false) line)
         (_normalize_lines text).
Proof.
  apply Forall_forall. intros line Hin.
  destruct (normalize_lines_elem _ _ Hin) as [Hne Hs]. split; [exact Hne|]. split; [exact Hs|].
  unfold _normalize_lines in Hin. rewrite list_elem_of_In, filter_In, <- list_elem_of_In in Hin.
  destruct Hin as [Hin _]. apply list_elem_of_fmap in Hin as (raw & -> & Hraw).
  apply strip_no_break.
  pose proof (splitlines_from_no_break [] false text (Forall_nil_2 _)) as Hall.
  rewrite Forall_forall in Hall. exact (Hall raw Hraw).
Qed.

(** X5: every line the normalizer returns is not empty, has no white space
    at either end and holds no line break; lines of this kind, joined by
    newlines, are returned as they are, so that normalizing the newline-joined
    result of the normalizer gives that result again. *)
Theorem normalize_lines_round_trip (text : str) :
  Forall (fun line => line <> [] /\ strip line = line
                      /\ Forall (fun c => is_linebreak c = false) line)
         (_normalize_lines text)
  /\ (forall lines,
        Forall (fun line => line <> [] /\ strip line = line
                            /\ Forall (fun c => is_linebreak c = false) line) lines ->
        _normalize_lines (join [0x0A] lines) = lines)
  /\ _normalize_lines (join [0x0A] (_normalize_lines text)) = _normalize_lines text.
Proof.
  split; [apply normalize_lines_normal|]. split; [exact normalize_lines_join|].
  apply normalize_lines_join, normalize_lines_normal.
Qed.

(** *** Nothing lost in the segmentation *)

Lemma concat_fmap_app {A B} (f g : A -> list B) (ids : list A) :
  concat ((fun k => f k ++ g k) <$> ids) ≡ₚ concat (f <$> ids) ++ concat (g <$> ids).
Proof.
  induction ids as [|a ids IH]; [reflexivity|]. rewrite !fmap_cons. cbn [concat].
  rewrite IH, <- !app_assoc. apply Permutation_app_head. apply Permutation_app_swap_app.
Qed.

Lemma concat_fmap_single {A B} `{EqDecision A} (P : Prop) `{Decision P}
    (cur : A) (x : B) (ids : list A) :
  NoDup ids -> cur ∈ ids ->
  concat ((fun k => if decide (P /\ cur = k) then [x] else []) <$> ids)
  = if decide P then [x] else [].
Proof.
  assert (Hout : forall ids', cur ∉ ids' ->
            concat ((fun k => if decide (P /\ cur = k) then [x] else []) <$> ids') = []).
  { induction ids' as [|a ids' IH]; [reflexivity|]. intros Hn.
    apply not_elem_of_cons in Hn as [Hne Hn]. rewrite fmap_cons. cbn [concat].
    rewrite (IH Hn), decide_False by tauto. reflexivity. }
  induction ids as [|a ids IH]; intros Hnd Hin; [inversion Hin|].
  apply NoDup_cons in Hnd as [Ha Hnd]. rewrite fmap_cons. cbn [concat].
  destruct (decide (cur = a)) as [->|Hne].
  - rewrite (Hout _ Ha), app_nil_r.
    destruct (decide P); [rewrite decide_True by auto|rewrite decide_False by tauto];
      reflexivity.
  - apply elem_of_cons in Hin as [?|Hin]; [contradiction|].
    rewrite decide_False by tauto. cbn [app]. exact (IH Hnd Hin).
Qed.

Lemma section_ids_NoDup : NoDup section_ids.
Proof. apply (bool_decide_unpack _). by_computation. Qed.

Section NothingLost.
Context `{U : Unicode}.

Lemma detect_section_not_header (line d : str) :
  _detect_section line = Some d -> d <> u "header".
Proof.
  intros H Hd. apply detect_in_key in H. subst d. revert H.
  apply (bool_decide_eq_false_1 _). by_computation.
Qed.

Lemma buckets_after_content (pre lines : list str) :
  concat ((fun k => bucket_after pre k lines) <$> section_ids)
  ≡ₚ List.filter (fun line => negb (found (_detect_section line))) lines.
Proof.
  revert pre. induction lines as [|line lines IH]; intros pre.
  - unfold bucket_after. cbn [imap omap list_omap]. by_computation.
  - assert (Heq : (fun k => bucket_after pre k (line :: lines)) <$> section_ids
                  = (fun k => (if decide (_detect_section line = None /\ cursor_after pre = k)
                               then [line] else [])
                              ++ bucket_after (pre ++ [line]) k lines) <$> section_ids).
    { apply list_fmap_ext. intros _ k _. apply bucket_after_cons. }
    rewrite Heq, concat_fmap_app, IH,
      (concat_fmap_single _ _ _ _ section_ids_NoDup (cursor_after_section_id pre)).
    cbn [List.filter]. destruct (_detect_section line) as [d|]; cbn [found negb].
    + rewrite decide_False by discriminate. reflexivity.
    + rewrite decide_True by reflexivity. reflexivity.
Qed.

Lemma cursor_after_left_header (pre more : list str) :
  cursor_after pre <> u "header" -> cursor_after (pre ++ more) <> u "header".
Proof.
  intros H. induction more as [|line more IH] using rev_ind; [rewrite app_nil_r; exact H|].
  rewrite app_assoc, cursor_after_snoc.
  destruct (_detect_section line) as [d|] eqn:E; [|exact IH].
  exact (detect_section_not_header _ _ E).
Qed.

Lemma bucket_after_header_closed (pre lines : list str) :
  cursor_after pre <> u "header" -> bucket_after pre (u "header") lines = [].
Proof.
  revert pre. induction lines as [|line lines IH]; intros pre H; [reflexivity|].
  rewrite bucket_after_cons, decide_False by tauto. cbn [app]. apply IH.
  apply cursor_after_left_header. exact H.
Qed.

Lemma bucket_after_header_open (pre lines more : list str) :
  cursor_after pre = u "header" -> Forall (fun line => ~ is_heading line) lines ->
  bucket_after pre (u "header") (lines ++ more)
  = lines ++ bucket_after (pre ++ lines) (u "header") more.
Proof.
  revert pre. induction lines as [|line lines IH]; intros pre Hc Hall.
  - rewrite app_nil_r. reflexivity.
  - apply Forall_cons in Hall as [Hl Hall]. apply detect_none_not_heading in Hl.
    cbn [app]. rewrite bucket_after_cons, decide_True by auto. cbn [app]. f_equal.
    rewrite IH; [|rewrite cursor_after_snoc, Hl; exact Hc|exact Hall].
    rewrite <- app_assoc. reflexivity.
Qed.

End NothingLost.

(** X6: the six buckets of [_split_sections], put one after the other, are
    a rearrangement of the lines that are not headings: no such line is lost
    and none is put in two buckets. *)
Theorem split_sections_nothing_lost `{U : Unicode} (lines : list str) :
  concat ((fun k => get (_split_sections lines) k) <$> section_ids)
  ≡ₚ List.filter (fun line => negb (found (_detect_section line))) lines.
Proof.
  rewrite <- (buckets_after_content [] lines).
  assert (Heq : (fun k => get (_split_sections lines) k) <$> section_ids
                = (fun k => bucket_after [] k lines) <$> section_ids).
  { apply list_fmap_ext. intros _ k _. apply split_sections_get. }
  rewrite Heq. reflexivity.
Qed.

(** X7: the [header] bucket is the lines before the first heading, all the
    lines when there is no heading; no line after a heading goes to it. *)
Theorem split_sections_header `{U : Unicode} (lines : list str) :
  (Forall (fun line => ~ is_heading line) lines ->
   get (_split_sections lines) (u "header") = lines)
  /\ (forall pre heading rest,
        lines = pre ++ heading :: rest ->
        Forall (fun line => ~ is_heading line) pre -> is_heading heading ->
        get (_split_sections lines) (u "header") = pre).
Proof.
  rewrite split_sections_get. unfold bucket_of. split.
  - intros H. rewrite <- (app_nil_r lines) at 1.
    rewrite bucket_after_header_open by auto. cbn. rewrite app_nil_r. reflexivity.
  - intros pre heading rest -> Hpre Hh.
    rewrite bucket_after_header_open by auto. cbn [app].
    apply detect_section_heading in Hh as [d Hd].
    rewrite bucket_after_cons, decide_False by (rewrite Hd; intros [? _]; discriminate).
    cbn [app]. rewrite bucket_after_header_closed; [apply app_nil_r|].
    rewrite cursor_after_snoc, Hd. exact (detect_section_not_header _ _ Hd).
Qed.

(** *** What a skill can hold *)

Lemma split_on_pieces (sep : N) (s piece : str) :
  piece ∈ split_on sep s -> (sep ∉ piece) /\ forall c, c ∈ piece -> c ∈ s.
Proof.
  revert piece. induction s as [|x s IH]; intros piece; cbn [split_on].
  - intros H. apply list_elem_of_singleton in H as ->.
    split; [apply not_elem_of_nil|auto].
  - destruct (N.eqb_spec x sep) as [->|Hne].
    + intros H. apply elem_of_cons in H as [->|H].
      * split; [apply not_elem_of_nil|]. intros c Hc. inversion Hc.
      * destruct (IH _ H) as [H1 H2]. split; [exact H1|]. intros c Hc. right. auto.
    + destruct (split_on sep s) as [|p ps] eqn:E.
      * intros H. apply list_elem_of_singleton in H as ->. split.
        -- rewrite not_elem_of_cons. split; [congruence|apply not_elem_of_nil].
        -- intros c Hc. apply list_elem_of_singleton in Hc as ->. left.
      * intros H. apply elem_of_cons in H as [->|H].
        -- destruct (IH p (list_elem_of_here _ _)) as [H1 H2]. split.
           ++ rewrite not_elem_of_cons. split; [congruence|exact H1].
           ++ intros c Hc. apply elem_of_cons in Hc as [->|Hc]; [left|right; auto].
        -- destruct (IH piece) as [H1 H2]; [right; exact H|].
           split; [exact H1|]. intros c Hc. right. auto.
Qed.

Lemma join_elem (sep line : str) (lines : list str) (c : N) :
  line ∈ lines -> c ∈ line -> c ∈ join sep lines.
Proof.
  induction lines as [|l lines IH]; intros Hl Hc; [inversion Hl|].
  assert (Hj : join sep (l :: lines)
               = match lines with [] => l | _ => l ++ sep ++ join sep lines end)
    by (destruct lines; reflexivity).
  apply elem_of_cons in Hl as [->|Hl].
  - rewrite Hj. destruct lines; [exact Hc|]. apply elem_of_app. left. exact Hc.
  - rewrite Hj. destruct lines as [|l' lines]; [inversion Hl|].
    apply elem_of_app. right. apply elem_of_app. right. apply IH; assumption.
Qed.

Lemma trimmed_nonblank_from (parts : list str) (x : str) :
  x ∈ trimmed_nonblank parts -> exists part, part ∈ parts /\ x = strip part.
Proof.
  unfold trimmed_nonblank. intros H. apply list_elem_of_omap in H as (p & Hin & Hp).
  exists p. split; [exact Hin|]. destruct (strip p); [discriminate|]. congruence.
Qed.

Lemma unbulleted_from (lines : list str) (x : str) :
  x ∈ unbulleted lines -> exists line, line ∈ lines /\ x = strip_chars (u "- ") line.
Proof.
  unfold unbulleted. intros H. apply list_elem_of_omap in H as (l & Hin & Hl).
  exists l. split; [exact Hin|]. destruct (strip l); [discriminate|]. congruence.
Qed.

(** X8: no skill returned by [_parse_skills] holds a semicolon, and none
    holds a comma unless the joined lines hold a semicolon; when the joined
    lines hold a semicolon or a comma, every skill is trimmed and not
    empty. *)
Theorem parse_skills_delimiters (lines : list str) :
  Forall (fun skill =>
            (0x3B ∉ skill)
            /\ (0x3B ∉ join (u " ") lines -> 0x2C ∉ skill)
            /\ (0x3B ∈ join (u " ") lines \/ 0x2C ∈ join (u " ") lines ->
                skill <> [] /\ strip skill = skill))
         (_parse_skills lines).
Proof.
  apply Forall_forall. intros skill. unfold _parse_skills. cbv zeta.
  rewrite u_semicolon, u_comma, !contains_char, !strip_filter_trimmed,
    strip_chars_filter_unbulleted.
  destruct (decide (59 ∈ join (u " ") lines)) as [H1|H1].
  - rewrite (bool_decide_eq_true_2 _ H1). intros Hs.
    pose proof (trimmed_nonblank_elem _ _ Hs) as Htrim.
    apply trimmed_nonblank_from in Hs as (part & Hpart & ->).
    apply split_on_pieces in Hpart as [Hsep _].
    split; [|split; [contradiction|auto]].
    intros Hc. apply Hsep. exact (strip_by_elem _ _ _ Hc).
  - rewrite (bool_decide_eq_false_2 _ H1).
    destruct (decide (44 ∈ join (u " ") lines)) as [H2|H2].
    + rewrite (bool_decide_eq_true_2 _ H2). intros Hs.
      pose proof (trimmed_nonblank_elem _ _ Hs) as Htrim.
      apply trimmed_nonblank_from in Hs as (part & Hpart & ->).
      apply split_on_pieces in Hpart as [Hsep Hsub].
      split; [|split; [|auto]].
      * intros Hc. apply H1, Hsub. exact (strip_by_elem _ _ _ Hc).
      * intros _ Hc. apply Hsep. exact (strip_by_elem _ _ _ Hc).
    + rewrite (bool_decide_eq_false_2 _ H2). intros Hs.
      apply unbulleted_from in Hs as (line & Hline & ->).
      split; [|split; [|tauto]].
      * intros Hc. apply H1. eapply join_elem; [exact Hline|].
        exact (strip_by_elem _ _ _ Hc).
      * intros _ Hc. apply H2. eapply join_elem; [exact Hline|].
        exact (strip_by_elem _ _ _ Hc).
Qed.

(** *** Contact fields *)

Section ContactFields.
Context `{U : Unicode}.

Lemma rx_match_min_length (r : regex) (b a b' a' : str) :
  (b', a') ∈ rx_match r b a -> (length a' + min_length r <= length a)%nat.
Proof.
  revert b a b' a'. induction r as [|c|c|p|r1 IH1 r2 IH2|r1 IH1 r2 IH2|r1 IH1|lo hi p|];
    intros b a b' a' H; cbn [min_length].
  - apply rx_match_span in H as (m & -> & _). rewrite length_app. lia.
  - cbn [rx_match] in H. destruct a as [|x a]; [inversion H|].
    destruct (x =? c); [|inversion H]. apply list_elem_of_singleton in H.
    injection H as _ ->. cbn [length]. lia.
  - cbn [rx_match] in H. destruct a as [|x a]; [inversion H|].
    destruct (icase_eq c x); [|inversion H]. apply list_elem_of_singleton in H.
    injection H as _ ->. cbn [length]. lia.
  - cbn [rx_match] in H. destruct a as [|x a]; [inversion H|].
    destruct (p x); [|inversion H]. apply list_elem_of_singleton in H.
    injection H as _ ->. cbn [length]. lia.
  - cbn [rx_match] in H. apply list_elem_of_bind in H as [[b1 a1] [H2 H1]].
    apply IH1 in H1. apply IH2 in H2. lia.
  - cbn [rx_match] in H. apply elem_of_app in H as [H|H]; [apply IH1 in H|apply IH2 in H]; lia.
  - apply rx_match_span in H as (m & -> & _). rewrite length_app. lia.
  - cbn [rx_match] in H. apply rx_repeat_span in H as (m & -> & _ & _ & Hlo).
    rewrite length_app. lia.
  - apply rx_match_span in H as (m & -> & _). rewrite length_app. lia.
Qed.

(** What [re.search] returns is a piece of the text, at least as long as the
    pattern demands. *)
Lemma re_search_piece (r : regex) (s m : str) :
  re_search r s = Some m -> piece_of m s /\ (min_length r <= length m)%nat.
Proof.
  intros H. unfold re_search in H. apply search_from_span in H as (pre & post & Hs & Hh).
  split; [exists pre, post; exact Hs|].
  assert (Hin : (reverse m ++ reverse pre ++ [], post)
                ∈ rx_match r (reverse pre ++ []) (m ++ post)).
  { destruct (rx_match r (reverse pre ++ []) (m ++ post)); [discriminate|].
    injection Hh as ->. left. }
  apply rx_match_min_length in Hin. rewrite length_app in Hin. lia.
Qed.

Lemma email_match_at (b a b' a' : str) :
  (b', a') ∈ rx_match email_pattern b a ->
  exists m, a = m ++ a' /\ 0x40 ∈ m.
Proof.
  unfold email_pattern. intros H. cbn [rx_match] in H.
  apply list_elem_of_bind in H as [[b1 a1] [H H1]].
  apply rx_repeat_span in H1 as (m1 & -> & _).
  apply list_elem_of_bind in H as [[b2 a2] [H H2]].
  destruct a1 as [|x a1]; [inversion H2|]. destruct (N.eqb_spec x 64) as [->|]; [|inversion H2].
  apply list_elem_of_singleton in H2. injection H2 as _ ->.
  assert (Hrest : (b', a') ∈ rx_match
            (Cat (Rep 1 None (fun c => is_word c || (c =? 0x2D)))
                 (Cat (Lit 0x2E)
                      (Rep 1 None (fun c => is_word c || (c =? 0x2E) || (c =? 0x2D)))))
            b2 a1) by exact H.
  apply rx_match_span in Hrest as (m3 & -> & _).
  exists (m1 ++ 64 :: m3). rewrite <- app_assoc. split; [reflexivity|].
  apply elem_of_app. right. left.
Qed.

Lemma email_search (s m : str) : re_search email_pattern s = Some m -> 0x40 ∈ m.
Proof.
  intros H. unfold re_search in H. apply search_from_span in H as (pre & post & _ & Hh).
  assert (Hin : (reverse m ++ reverse pre ++ [], post)
                ∈ rx_match email_pattern (reverse pre ++ []) (m ++ post)).
  { destruct (rx_match email_pattern (reverse pre ++ []) (m ++ post)); [discriminate|].
    injection Hh as ->. left. }
  apply email_match_at in Hin as (m' & Hm & Hat). apply app_inv_tail in Hm. subst m'. exact Hat.
Qed.

End ContactFields.

Lemma last_fmap_filter {A B} (f : A -> B) (P : A -> bool) (l : list A) :
  match last (f <$> List.filter P l) with
  | Some y => exists before x after,
                l = before ++ x :: after /\ y = f x /\ P x = true
                /\ Forall (fun z => P z = false) after
  | None => Forall (fun z => P z = false) l
  end.
Proof.
  induction l as [|x l IH] using rev_ind; [constructor|].
  rewrite List.filter_app, fmap_app. cbn [List.filter]. destruct (P x) eqn:E.
  - cbn [fmap list_fmap]. rewrite last_snoc. exists l, x, []. auto.
  - cbn [fmap list_fmap]. rewrite app_nil_r.
    destruct (last (f <$> List.filter P l)) as [y|].
    + destruct IH as (before & z & after & -> & Hy & Hz & Hafter).
      exists before, z, (after ++ [x]). rewrite <- app_assoc. split; [reflexivity|].
      split; [exact Hy|]. split; [exact Hz|]. apply Forall_app. auto.
    + apply Forall_app. auto.
Qed.

(** X9: the contact of a header that has a first line takes that line as the
    name and reads every other field from the remaining lines joined by
    spaces.  An e-mail, phone or LinkedIn value is a piece of that text of at
    least 5, 8 and 14 characters, the e-mail holding an at sign; the website
    is the first web address of the text, present exactly when the text holds
    one; the location is the last piece between commas that is longer than
    two characters once trimmed, trimmed, and is absent exactly when the text
    has no comma or no such piece. *)
Theorem extract_contact_fields `{U : Unicode} (name : str) (rest : list str) :
  let details := join (u " ") rest in
  let contact := _extract_contact (name :: rest) in
  ContactInfo.full_name contact = name
  /\ match ContactInfo.email contact with
     | Some v => piece_of v details /\ (5 <= length v)%nat /\ 0x40 ∈ v
     | None => True
     end
  /\ match ContactInfo.phone contact with
     | Some v => piece_of v details /\ (8 <= length v)%nat
     | None => True
     end
  /\ match ContactInfo.linkedin contact with
     | Some v => piece_of v details /\ (14 <= length v)%nat
     | None => True
     end
  /\ match ContactInfo.website contact with
     | Some v => url_in details v
     | None => ~ has_url details
     end
  /\ match ContactInfo.location contact with
     | Some v =>
       exists before part after,
         split_on 0x2C details = before ++ part :: after
         /\ (before <> [] \/ after <> [])
         /\ v = strip part /\ (2 < length v)%nat
         /\ Forall (fun later => (length (strip later) <= 2)%nat) after
     | None =>
       (0x2C ∉ details)
       \/ Forall (fun part => (length (strip part) <= 2)%nat) (split_on 0x2C details)
     end.
Proof.
  intros details contact.
  assert (Hd : (if (1 <? length (name :: rest))%nat then join (u " ") (drop 1 (name :: rest))
                else []) = details).
  { destruct rest; reflexivity. }
  unfold contact, _extract_contact. rewrite Hd. clear Hd.
  cbn [ContactInfo.full_name ContactInfo.email ContactInfo.phone ContactInfo.linkedin
       ContactInfo.website ContactInfo.location].
  split; [reflexivity|]. split.
  { destruct (re_search email_pattern details) as [v|] eqn:E; [|exact I].
    destruct (re_search_piece _ _ _ E) as [Hp Hl]. split; [exact Hp|]. split; [exact Hl|].
    exact (email_search _ _ E). }
  split.
  { destruct (re_search phone_pattern details) as [v|] eqn:E; [|exact I].
    exact (re_search_piece _ _ _ E). }
  split.
  { destruct (re_search linkedin_pattern details) as [v|] eqn:E; [|exact I].
    exact (re_search_piece _ _ _ E). }
  split; [apply url_search|].
  rewrite u_comma, contains_char.
  destruct (decide (44 ∈ details)) as [Hc|Hc].
  - rewrite (bool_decide_eq_true_2 _ Hc).
    pose proof (last_fmap_filter strip (fun part => (2 <? length (strip part))%nat)
                  (split_on 44 details)) as Hlast.
    destruct (last _) as [v|].
    + destruct Hlast as (before & part & after & Hs & Hv & Hp & Hafter).
      exists before, part, after. split; [exact Hs|]. split.
      { destruct before as [|b0 before]; [|left; discriminate].
        destruct after as [|a0 after]; [|right; discriminate]. exfalso.
        cbn [app] in Hs.
        assert (Hin : part ∈ split_on 44 details) by (rewrite Hs; left).
        apply split_on_pieces in Hin as [Hno _].
        assert (Hlen : length (split_on 44 details)
                       = S (length (List.filter (fun c => c =? 44) details))).
        { clear. induction details as [|x s IH]; [reflexivity|]. cbn [split_on List.filter].
          destruct (x =? 44); cbn [length]; [rewrite IH; reflexivity|].
          destruct (split_on 44 s); cbn [length] in *; lia. }
        rewrite Hs in Hlen. cbn [length] in Hlen.
        assert (Hf : List.filter (fun c => c =? 44) details = []) by
          (destruct (List.filter _ details); [reflexivity|discriminate]).
        assert (Hin44 : In 44 (List.filter (fun c => c =? 44) details)).
        { apply filter_In. split; [apply list_elem_of_In; exact Hc|reflexivity]. }
        rewrite Hf in Hin44. exact Hin44. }
      split; [exact Hv|]. split; [subst v; apply Nat.ltb_lt; exact Hp|].
      eapply Forall_impl; [exact Hafter|]. intros z Hz. apply Nat.ltb_ge in Hz. exact Hz.
    + right. eapply Forall_impl; [exact Hlast|]. intros z Hz. apply Nat.ltb_ge in Hz. exact Hz.
  - rewrite (bool_decide_eq_false_2 _ Hc). left. exact Hc.
Qed.

(** X10: a header of one line gives that line as the name and no other
    field, whatever the line holds: an e-mail address or a phone number on
    the first line is not read. *)
Theorem extract_contact_name_only `{U : Unicode} (name : str) :
  _extract_contact [name] = ContactInfo.mk name None None None None None.
Proof.
  unfold _extract_contact. cbn [length Nat.ltb Nat.leb].
  change (re_search email_pattern []) with (@None str).
  change (re_search phone_pattern []) with (@None str).
  change (re_search linkedin_pattern []) with (@None str).
  change (re_search url_pattern []) with (@None str).
  change (contains (u ",") []) with false. reflexivity.
Qed.

(** *** The format check and the upload endpoint *)

Section FormatCheck.
Context `{U : Unicode}.
Variable pdf docx : list byte -> result str.

Lemma parse_text_raises (text : str) (e : exn) :
  parse_text text = Raise e -> e = IndexError.
Proof.
  intros H. destruct (parse_text_cases text) as [(data & Hd & _)|(Hr & _)]; congruence.
Qed.

Lemma bind_parse_text_raises (r : result str) (e : exn) :
  r ≫= parse_text = Raise e -> r = Raise e \/ e = IndexError.
Proof.
  destruct r as [text|e']; cbn [mbind result_bind].
  - intros H. right. exact (parse_text_raises _ _ H).
  - intros [= ->]. left. reflexivity.
Qed.

(** The three branches of [parse_resume]. *)
Lemma parse_resume_branches (file_bytes : list byte) (filename : str) :
  parse_resume pdf docx file_bytes filename =
  if endswith (lower filename) (u ".pdf") then pdf file_bytes ≫= parse_text
  else if endswith (lower filename) (u ".doc") || endswith (lower filename) (u ".docx")
       then docx file_bytes ≫= parse_text
       else Raise (ValueError unsupported_message).
Proof.
  unfold parse_resume. destruct (endswith (lower filename) (u ".pdf")); [reflexivity|].
  destruct (endswith (lower filename) (u ".doc") || endswith (lower filename) (u ".docx"));
    reflexivity.
Qed.

Lemma parse_resume_value_error (file_bytes : list byte) (filename msg : str) :
  (forall m, pdf file_bytes <> Raise (ValueError m)) ->
  (forall m, docx file_bytes <> Raise (ValueError m)) ->
  parse_resume pdf docx file_bytes filename = Raise (ValueError msg) <->
  supported filename = false /\ msg = unsupported_message.
Proof.
  intros Hpdf Hdocx. rewrite parse_resume_branches. unfold supported.
  destruct (endswith (lower filename) (u ".pdf")); cbn [orb].
  - split; [|intros [? _]; discriminate]. intros H.
    apply bind_parse_text_raises in H as [H|H]; [|discriminate]. exfalso. exact (Hpdf _ H).
  - destruct (endswith (lower filename) (u ".doc") || endswith (lower filename) (u ".docx")).
    + split; [|intros [? _]; discriminate]. intros H.
      apply bind_parse_text_raises in H as [H|H]; [|discriminate]. exfalso. exact (Hdocx _ H).
    + split; [intros [= <-]; auto|intros [_ ->]; reflexivity].
Qed.

End FormatCheck.

(** X11: when the text extractors raise no [ValueError] on the bytes,
    [parse_resume] raises a [ValueError] exactly for the file names whose
    lower-cased form ends in none of .pdf, .doc and .docx, and its message
    is the fixed unsupported-format message: no other input of the parser is
    refused in this way. *)
Theorem parse_resume_value_error_iff `{U : Unicode} (pdf docx : list byte -> result str)
    (file_bytes : list byte) (filename msg : str) :
  (forall m, pdf file_bytes <> Raise (ValueError m)) ->
  (forall m, docx file_bytes <> Raise (ValueError m)) ->
  parse_resume pdf docx file_bytes filename = Raise (ValueError msg) <->
  supported filename = false /\ msg = unsupported_message.
Proof. apply parse_resume_value_error. Qed.

Lemma parse_resume_value_error_iff_witness :
  @parse_resume Latin1 (fun _ => Ok []) (fun _ => Raise ExtractorError) [] (u "cv.txt")
    = Raise (ValueError unsupported_message)
  <-> @supported Latin1 (u "cv.txt") = false /\ unsupported_message = unsupported_message.
Proof.
  apply (@parse_resume_value_error_iff Latin1); intros m H; discriminate H.
Defined.

(** X12: the upload endpoint, for an upload that was read and has a name,
    with text extractors that raise no [ValueError]: it answers 400 exactly
    when the extension is not supported, and the detail is then the
    unsupported-format message; with a supported extension whose extractor
    returns a text it returns the parsed data, unless a line of the
    education or projects bucket has no fragment, in which case it answers
    500 with the fixed detail. *)
Theorem parse_resume_endpoint_answers `{U : Unicode} (pdf docx : list byte -> result str)
    (contents : list byte) (name : str) :
  (forall m, pdf contents <> Raise (ValueError m)) ->
  (forall m, docx contents <> Raise (ValueError m)) ->
  let answer := parse_resume_endpoint pdf docx (Ok contents) (Some name) in
  (forall detail, answer = HTTPException 400 detail <->
                  supported name = false /\ detail = unsupported_message)
  /\ (forall text,
        (if endswith (lower name) (u ".pdf") then pdf contents else docx contents) = Ok text ->
        supported name = true ->
        match parse_text text with
        | Ok data => answer = Returns data
        | Raise _ => answer = HTTPException 500 internal_error_detail
        end).
Proof.
  intros Hpdf Hdocx answer. unfold answer, parse_resume_endpoint. split.
  - intros detail. rewrite <- (parse_resume_value_error pdf docx contents name detail Hpdf Hdocx).
    destruct (parse_resume pdf docx contents name) as [data|e]; [split; discriminate|].
    destruct e; cbn [handle_exception]; split; congruence.
  - intros text Htext Hsup. rewrite parse_resume_branches. unfold supported in Hsup.
    destruct (endswith (lower name) (u ".pdf")); cbn [orb] in Hsup.
    + rewrite Htext. cbn [mbind result_bind].
      destruct (parse_text text) as [data|e] eqn:E; [reflexivity|].
      rewrite (parse_text_raises _ _ E). reflexivity.
    + rewrite Hsup, Htext. cbn [mbind result_bind].
      destruct (parse_text text) as [data|e] eqn:E; [reflexivity|].
      rewrite (parse_text_raises _ _ E). reflexivity.
Qed.

Lemma parse_resume_endpoint_answers_witness :
  let answer := @parse_resume_endpoint Latin1 (fun _ => Ok (u "Jane Doe"))
                  (fun _ => Raise ExtractorError) (Ok []) (Some (u "cv.pdf")) in
  (forall detail, answer = HTTPException 400 detail <->
                  @supported Latin1 (u "cv.pdf") = false /\ detail = unsupported_message)
  /\ (forall text,
        (if endswith (@lower Latin1 (u "cv.pdf")) (u ".pdf")
         then Ok (u "Jane Doe") else Raise ExtractorError) = Ok text ->
        @supported Latin1 (u "cv.pdf") = true ->
        match @parse_text Latin1 text with
        | Ok data => answer = Returns data
        | Raise _ => answer = HTTPException 500 internal_error_detail
        end).
Proof.
  apply (@parse_resume_endpoint_answers Latin1 (fun _ => Ok (u "Jane Doe"))
           (fun _ => Raise ExtractorError) [] (u "cv.pdf"));
    intros m H; discriminate H.
Defined.

(** *** Tidy experience entries *)

Lemma lstrip_by_head (p : N -> bool) (s : str) (c : N) :
  head (lstrip_by p s) = Some c -> p c = false.
Proof.
  induction s as [|x s IH]; [discriminate|]. cbn [lstrip_by].
  destruct (p x) eqn:E; [exact IH|]. intros [= <-]. exact E.
Qed.

Lemma strip_by_ends (p : N -> bool) (s : str) (c : N) :
  head (strip_by p s) = Some c \/ last (strip_by p s) = Some c -> p c = false.
Proof.
  intros [H|H].
  - unfold strip_by in H. rewrite <- lstrip_rstrip in H. exact (lstrip_by_head _ _ _ H).
  - unfold strip_by, rstrip_by in H. rewrite last_reverse in H. exact (lstrip_by_head _ _ _ H).
Qed.

Lemma strip_chars_clean (chars s : str) : clean_ends chars (strip_chars chars s).
Proof.
  intros c H. apply strip_by_ends in H. unfold char_in in H.
  apply bool_decide_eq_false in H. exact H.
Qed.

Section TidyExperience.
Context `{U : Unicode}.

Lemma experience_from_block_tidy (header : str) (rest : list str) (item : ExperienceItem.t) :
  _experience_from_block (header :: rest) = Ok item -> tidy_experience item.
Proof.
  unfold _experience_from_block.
  cbn [getitem lookup list_lookup mbind result_bind drop].
  set (role_of := fun parts : list str =>
         match parts with
         | [part0; part1] => (Some part0, part1)
         | _ => (@None str, header)
         end).
  assert (Hparts : forall parts, Forall (fun part => strip part = part) parts ->
            forall v, (role_of parts).1 = Some v -> strip v = v).
  { intros [|p0 [|p1 [|p2 parts]]] Hall v; cbn; try discriminate.
    intros [= <-]. apply Forall_cons in Hall as [H _]. exact H. }
  assert (Hstripped : Forall (fun part => strip part = part)
                        (strip <$> split_once 0x2D header)).
  { apply Forall_fmap, Forall_forall. intros part _. apply strip_idem. }
  set (dates_of := fun pieces : list str =>
         match pieces with
         | [s; e] => (Some (strip s), Some (strip e))
         | _ => (@None str, @None str)
         end).
  assert (Hdates : forall pieces v,
            (dates_of pieces).1 = Some v \/ (dates_of pieces).2 = Some v -> strip v = v).
  { intros [|s [|e [|x pieces]]] v; cbn; intros [H|H]; try discriminate;
      injection H as <-; apply strip_idem. }
  assert (Hhigh : forall lines : list str,
            Forall (clean_ends (u "- "))
              (strip_chars (u "- ") <$> List.filter (fun line => nonempty (strip line)) lines)).
  { intros lines. apply Forall_fmap, Forall_forall. intros line _. apply strip_chars_clean. }
  fold (role_of (strip <$> split_once 45 header)).
  destruct (contains (u "-") header).
  - destruct (role_of (strip <$> split_once 45 header)) as [company role] eqn:Erole.
    pose proof (Hparts _ Hstripped) as Hcompany. rewrite Erole in Hcompany.
    destruct (re_search date_pattern header) as [d|].
    + fold (dates_of (re_split date_separator d)).
      pose proof (Hdates (re_split date_separator d)) as Hd.
      destruct (dates_of (re_split date_separator d)) as [sd ed].
      intros [= <-]. unfold tidy_experience.
      cbn [ExperienceItem.role ExperienceItem.company ExperienceItem.start_date
           ExperienceItem.end_date ExperienceItem.summary ExperienceItem.highlights fst snd]
        in *.
      split; [apply strip_idem|]. split; [exact Hcompany|].
      split; [intros v Hv; apply Hd; left; exact Hv|].
      split; [intros v Hv; apply Hd; right; exact Hv|]. split; [reflexivity|apply Hhigh].
    + intros [= <-]. unfold tidy_experience.
      cbn [ExperienceItem.role ExperienceItem.company ExperienceItem.start_date
           ExperienceItem.end_date ExperienceItem.summary ExperienceItem.highlights fst snd]
        in *.
      split; [apply strip_idem|]. split; [exact Hcompany|].
      split; [discriminate|]. split; [discriminate|]. split; [reflexivity|apply Hhigh].
  - destruct (re_search date_pattern header) as [d|].
    + fold (dates_of (re_split date_separator d)).
      pose proof (Hdates (re_split date_separator d)) as Hd.
      destruct (dates_of (re_split date_separator d)) as [sd ed].
      intros [= <-]. unfold tidy_experience.
      cbn [ExperienceItem.role ExperienceItem.company ExperienceItem.start_date
           ExperienceItem.end_date ExperienceItem.summary ExperienceItem.highlights fst snd]
        in *.
      split; [apply strip_idem|]. split; [discriminate|].
      split; [intros v Hv; apply Hd; left; exact Hv|].
      split; [intros v Hv; apply Hd; right; exact Hv|]. split; [reflexivity|apply Hhigh].
    + intros [= <-]. unfold tidy_experience.
      cbn [ExperienceItem.role ExperienceItem.company ExperienceItem.start_date
           ExperienceItem.end_date ExperienceItem.summary ExperienceItem.highlights fst snd]
        in *.
      split; [apply strip_idem|]. split; [discriminate|].
      split; [discriminate|]. split; [discriminate|]. split; [reflexivity|apply Hhigh].
Qed.

Lemma experience_loop_tidy (lines : list str) (experiences : list ExperienceItem.t)
    (buffer : list str) (items : list ExperienceItem.t) :
  Forall tidy_experience experiences ->
  experience_loop lines experiences buffer = Ok items -> Forall tidy_experience items.
Proof.
  revert experiences buffer. induction lines as [|line lines IH]; intros experiences buffer Hex.
  - cbn. intros [= <-]. exact Hex.
  - cbn [experience_loop]. destruct (negb (nonempty (strip line)) && _) eqn:E.
    + apply andb_true_iff in E as [_ Hb]. apply negb_true_iff, bool_decide_eq_false in Hb.
      destruct buffer as [|header rest]; [contradiction|].
      destruct (_experience_from_block (header :: rest)) as [item|e] eqn:Eb; [|discriminate].
      cbn [mbind result_bind]. apply IH. apply Forall_app. split; [exact Hex|].
      constructor; [|constructor]. exact (experience_from_block_tidy _ _ _ Eb).
    + apply IH. exact Hex.
Qed.

End TidyExperience.

(** X13: in every entry that [_parse_experience] returns the role, the
    company and the two dates have no white space at either end, the summary
    is absent, and no highlight begins or ends with a hyphen or a space. *)
Theorem parse_experience_tidy `{U : Unicode} (lines : list str) :
  exists items, _parse_experience lines = Ok items /\ Forall tidy_experience items.
Proof.
  unfold _parse_experience.
  destruct (experience_loop_ok (lines ++ [[]]) [] []) as [items Hi].
  exists items. split; [exact Hi|].
  exact (experience_loop_tidy _ _ _ _ (Forall_nil_2 _) Hi).
Qed.

(** *** The name *)

Section Name.
Context `{U : Unicode}.

Lemma header_bucket_first (lines : list str) :
  head (get (_split_sections lines) (u "header"))
  = match lines with
    | [] => None
    | line :: _ => if found (_detect_section line) then None else Some line
    end.
Proof.
  rewrite split_sections_get. unfold bucket_of. destruct lines as [|line lines]; [reflexivity|].
  rewrite bucket_after_cons. destruct (_detect_section line) as [d|] eqn:E; cbn [found].
  - rewrite decide_False by (intros [? _]; discriminate). cbn [app].
    rewrite bucket_after_header_closed; [reflexivity|].
    cbn [app]. change [line] with ([] ++ [line]). rewrite cursor_after_snoc, E.
    exact (detect_section_not_header _ _ E).
  - rewrite decide_True by (split; reflexivity). reflexivity.
Qed.

Lemma extract_contact_name (header_lines : list str) :
  ContactInfo.full_name (_extract_contact header_lines)
  = default (u "Nome não identificado") (head header_lines).
Proof. destruct header_lines; reflexivity. Qed.

Lemma parsed_name (text : str) (data : ResumeData.t) :
  parse_text text = Ok data ->
  ContactInfo.full_name (ResumeData.contact data)
  = match _normalize_lines text with
    | [] => u "Nome não identificado"
    | line :: _ => if found (_detect_section line) then u "Nome não identificado" else line
    end.
Proof.
  intros H. destruct (parse_text_cases text) as [(data' & Hd & Hc & _)|(Hr & _)];
    [|congruence].
  rewrite H in Hd. injection Hd as <-. rewrite Hc, extract_contact_name, header_bucket_first.
  destruct (_normalize_lines text) as [|line lines]; [reflexivity|].
  destruct (found (_detect_section line)); reflexivity.
Qed.

End Name.

(** X14: in a parsed résumé the name is the first line of the text that is
    not blank, trimmed, unless that line is a section heading or there is
    no such line; the name is then "Nome não identificado". *)
Theorem parse_text_name `{U : Unicode} (text : str) (data : ResumeData.t) :
  parse_text text = Ok data ->
  ContactInfo.full_name (ResumeData.contact data)
  = match _normalize_lines text with
    | [] => u "Nome não identificado"
    | line :: _ => if found (_detect_section line) then u "Nome não identificado" else line
    end.
Proof. apply parsed_name. Qed.

Lemma parse_text_name_witness :
  ContactInfo.full_name
    (ResumeData.contact
       (ResumeData.mk (ContactInfo.mk (u "Jane Doe") None None None None None)
          None [] [] [] []))
  = match @_normalize_lines (u "  Jane Doe ") with
    | [] => u "Nome não identificado"
    | line :: _ =>
      if found (@_detect_section Latin1 line) then u "Nome não identificado" else line
    end.
Proof.
  apply (@parse_text_name Latin1 (u "  Jane Doe ")). by_computation.
Defined.

